(** * Request governance layer of the Goodreads scraper API

A shallow embedding of the two stateful components of the service,

- [internal/cache/memory.go]: the in-memory TTL cache, and
- [internal/middleware]: the per-IP rate limiter and its two middlewares,
  together with the routing set-up of [internal/api/handlers.go] that
  instantiates them,

and the properties of them that the specification relies on.

Conventions of the embedding.

- Every exported operation of both components takes its component's
  mutex for its whole body, so each call is one atomic transition; a
  call is modelled as a function from the state before to the state
  after (and the result).  A request through a middleware is two such
  transitions, [GetLimiter] and then [Allow] on the limiter it returned;
  [AllowIP] composes them with nothing in between.
- [time.Now()] is an input of the transition that reads it.  Instants
  are integers (nanoseconds of the monotonic clock, which is what
  [Time.After] compares for values obtained from [time.Now()]), and a
  [time.Duration] is an integer number of nanoseconds.
- A Go [map] is a [gmap]; [interface{}] is [option V] for an arbitrary
  payload type [V], with [None] for the [nil] interface value. *)

From Stdlib Require Import ZArith QArith Qcanon Lia Lqa.
From stdpp Require Import gmap strings list fin_maps.
From stdpp Require Import pretty.

Local Open Scope Z_scope.

(** ** Package [time] (the part the service uses) *)

Module time.

Definition Time := Z.
Definition Duration := Z.

Definition Nanosecond : Duration := 1.
Definition Millisecond : Duration := 1000000.
Definition Second : Duration := 1000000000.
Definition Minute : Duration := 60 * Second.
Definition Hour : Duration := 60 * Minute.

(** [t.After(u)]: the instant [t] is strictly later than [u]. *)
Definition After (t u : Time) : bool := u <? t.

(** [t.Add(d)] *)
Definition Add (t : Time) (d : Duration) : Time := t + d.

End time.

(** ** Package [cache] *)

Module cache.
Import time.

Section WithPayload.
Context {V : Type}.

(** [interface{}] *)
Definition any : Type := option V.

Record CacheItem : Type := mkCacheItem {
  Data : any;
  ExpiresAt : Time;
}.

Record MemoryCache : Type := mkMemoryCache {
  data : gmap string CacheItem;
  ttl : Duration;
}.

(** [NewMemoryCache] has one return statement, of a fresh cache; it has
    no error result and no branch.  The goroutine it starts is [cleanup];
    its ticks are transitions of the cache like any other call (see [op]
    below). *)
Definition NewMemoryCache (ttl : Duration) : MemoryCache :=
  {| data := ∅; ttl := ttl |}.

Definition Get (c : MemoryCache) (key : string) (now : Time) : any * bool :=
  match data c !! key with
  | None => (None, false)
  | Some item =>
      if After now (ExpiresAt item) then (None, false)
      else (Data item, true)
  end.

Definition Set_ (c : MemoryCache) (key : string) (value : any) (now : Time)
  : MemoryCache :=
  {| data := <[key := {| Data := value; ExpiresAt := Add now (ttl c) |}]> (data c);
     ttl := ttl c |}.

Definition Delete (c : MemoryCache) (key : string) : MemoryCache :=
  {| data := delete key (data c); ttl := ttl c |}.

(** One tick of [cleanup]: the body of [for range ticker.C].  The loop
    ranges over the map and deletes the current key from the same map. *)
Definition cleanup (c : MemoryCache) (now : Time) : MemoryCache :=
  {| data :=
       map_fold (fun key item (acc : gmap string CacheItem) =>
                   if After now (ExpiresAt item) then delete key acc else acc)
                (data c) (data c);
     ttl := ttl c |}.

(** [Stats] returns a [map[string]int] with three keys. *)
Definition Stats (c : MemoryCache) (now : Time) : gmap string Z :=
  let total := Z.of_nat (size (data c)) in
  let expired :=
    map_fold (fun (_ : string) item (expired : Z) =>
                if After now (ExpiresAt item) then expired + 1 else expired)
             0 (data c) in
  <["total" := total]>
    (<["active" := total - expired]>
       (<["expired" := expired]> ∅)).

(** *** Histories

    A linearised history of calls on one cache, each with the instant
    its [time.Now()] read (unused by [Delete]). *)
Inductive op : Type :=
| OpGet (key : string)
| OpSet (key : string) (value : any)
| OpDelete (key : string)
| OpStats
| OpCleanup.

Definition step (c : MemoryCache) (e : op * Time) : MemoryCache :=
  match e with
  | (OpGet _, _) => c
  | (OpSet key value, now) => Set_ c key value now
  | (OpDelete key, _) => Delete c key
  | (OpStats, _) => c
  | (OpCleanup, now) => cleanup c now
  end.

Definition run (c : MemoryCache) (h : list (op * Time)) : MemoryCache :=
  foldl step c h.

Definition sets_key (key : string) (e : op * Time) : Prop :=
  match e with
  | (OpSet key' _, _) => key' = key
  | _ => False
  end.

(** The entry predicates used below. *)
Definition expired_at (now : Time) (item : CacheItem) : Prop :=
  ExpiresAt item < now.

Definition live_at (now : Time) (item : CacheItem) : Prop :=
  now <= ExpiresAt item.

#[global] Instance expired_at_dec now item : Decision (expired_at now item).
Proof. unfold expired_at. apply _. Defined.

#[global] Instance live_at_dec now item : Decision (live_at now item).
Proof. unfold live_at. apply _. Defined.

End WithPayload.

Arguments CacheItem V : clear implicits.
Arguments MemoryCache V : clear implicits.
Arguments op V : clear implicits.

(** *** A test scenario

The cache of [TestMemoryCache_Expiration]: a TTL of 100ms and one
[Set("key1", "value1")], here at instant 0, so that the entry expires
at instant [100 * Millisecond]. *)
Definition expiration_test : MemoryCache string :=
  Set_ (NewMemoryCache (100 * Millisecond)) "key1" (Some "value1"%string) 0.

End cache.

(** ** Package [rate] (golang.org/x/time/rate)

The service imports its token bucket, [rate.Limiter], from a module
outside the repository; the specification describes it as the
[TokenBucket] of its data model. *)

Module rate.
Import time.

Local Open Scope Qc_scope.

(** [rate.Limit]: tokens per second. *)
Definition Limit : Type := Qc.

Definition Qcleb (x y : Qc) : bool := Qle_bool x y.

Definition Qcmin (x y : Qc) : Qc := if Qcleb x y then x else y.

(** Modelled from the spec: the [TokenBucket] record of section 3,
    standing for the missing [rate.Limiter].  Token counts are exact
    rationals. *)
Record Limiter : Type := mkLimiter {
  capacity : Z;
  refillRatePerSecond : Limit;
  tokens : Qc;
  lastRefill : Time;
}.

(** Modelled from the spec: the missing [rate.NewLimiter]; a bucket is
    "initialized to tokens = capacity" (section 4.2) at the instant of its
    creation. *)
Definition NewLimiter (r : Limit) (b : Z) (now : Time) : Limiter :=
  {| capacity := b; refillRatePerSecond := r;
     tokens := Qc_of_Z b; lastRefill := now |}.

(** The seconds from [t0] to [t1]. *)
Definition elapsed (t0 t1 : Time) : Qc :=
  Qc_of_Z (t1 - t0) / Qc_of_Z Second.

(** Modelled from the spec: the lazy refill of the missing
    [rate.Limiter], "tokens increase by elapsed * refillRatePerSecond,
    capped at capacity" (section 4.2). *)
Definition refill (lim : Limiter) (now : Time) : Limiter :=
  {| capacity := capacity lim;
     refillRatePerSecond := refillRatePerSecond lim;
     tokens := Qcmin (Qc_of_Z (capacity lim))
                     (tokens lim + elapsed (lastRefill lim) now * refillRatePerSecond lim);
     lastRefill := now |}.

(** Modelled from the spec: the missing [Limiter.Allow]; after
    the refill it "returns true and decrements tokens by 1 if tokens >= 1;
    returns false and leaves tokens unchanged otherwise" (section 4.2). *)
Definition Allow (lim : Limiter) (now : Time) : bool * Limiter :=
  let lim' := refill lim now in
  if Qcleb 1 (tokens lim') then
    (true, {| capacity := capacity lim';
              refillRatePerSecond := refillRatePerSecond lim';
              tokens := tokens lim' - 1;
              lastRefill := lastRefill lim' |})
  else (false, lim').

(** Modelled from the spec: the missing [Limiter.Tokens], the
    "current token count" (section 4.2, [Remaining] and [CleanupIdle]);
    it reads the bucket and does not change it. *)
Definition Tokens (lim : Limiter) (now : Time) : Qc :=
  tokens (refill lim now).

End rate.

(** ** Package [middleware] *)

Module middleware.
Import time.

(** A [*rate.Limiter] is the index of its object in the list of all
    limiter objects allocated so far. *)
Abbreviation ptr := nat (only parsing).
Abbreviation heap := (list rate.Limiter) (only parsing).

Record IPRateLimiter : Type := mkIPRateLimiter {
  limiters : gmap string ptr;
  limit : rate.Limit;
  burst : Z;
}.

Definition NewIPRateLimiter (rps : Z) (burst : Z) : IPRateLimiter :=
  {| limiters := ∅; limit := Qc_of_Z rps; burst := burst |}.

(** [GetLimiter]; [now] is the clock reading of the bucket's creation,
    used only when the identity has no bucket yet. *)
Definition GetLimiter (i : IPRateLimiter) (ip : string) (now : Time) (h : heap)
  : ptr * IPRateLimiter * heap :=
  match limiters i !! ip with
  | Some limiter => (limiter, i, h)
  | None =>
      let limiter := length h in
      (limiter,
       {| limiters := <[ip := limiter]> (limiters i);
          limit := limit i; burst := burst i |},
       h ++ [rate.NewLimiter (limit i) (burst i) now])
  end.

(** [limiter.Tokens()] and [limiter.Allow()] through a pointer.  A pointer
    handed out by [GetLimiter] always has its object; the [None] branches
    are there for totality. *)
Definition Tokens (limiter : ptr) (now : Time) (h : heap) : Qc :=
  match h !! limiter with
  | Some lim => rate.Tokens lim now
  | None => 0%Qc
  end.

Definition Allow (limiter : ptr) (now : Time) (h : heap) : bool * heap :=
  match h !! limiter with
  | Some lim =>
      let '(ok, lim') := rate.Allow lim now in (ok, <[limiter := lim']> h)
  | None => (false, h)
  end.

(** [CleanupOldEntries]; the clock readings of the [Tokens] calls of one
    pass are taken to be one instant. *)
Definition CleanupOldEntries (i : IPRateLimiter) (now : Time) (h : heap)
  : IPRateLimiter :=
  {| limiters :=
       map_fold (fun ip limiter (acc : gmap string ptr) =>
                   if bool_decide (Tokens limiter now h = Qc_of_Z (burst i))
                   then delete ip acc else acc)
                (limiters i) (limiters i);
     limit := limit i; burst := burst i |}.

(** The conversion [int(x)] of a number: truncation towards zero. *)
Definition int (x : Qc) : Z := Z.quot (Qnum x) (Z.pos (Qden x)).

(** What a middleware does with a request: abort it with status 429, or
    pass it on.  Header values are kept as numbers, and of the JSON body
    of a refusal the error name and [retry_after]; the closures with
    their whole answer, the message included, are
    [RateLimitMiddleware_func] and [ScrapeRateLimitMiddleware_func]
    below. *)
Inductive outcome : Type :=
| Abort (status : Z) (x_ratelimit_limit : Z) (x_ratelimit_remaining : Z)
        (retry_after : Z) (error : string)
| Next (x_ratelimit_limit : Z) (x_ratelimit_remaining : Z).

(** The closure returned by [RateLimitMiddleware] and by
    [ScrapeRateLimitMiddleware]: the captured [rps], the captured
    [limiter] and the error name of the tier. *)
Record HandlerFunc : Type := mkHandlerFunc {
  rps_of : Z;
  limiter_of : IPRateLimiter;
  error_of : string;
}.

Definition RateLimitMiddleware (rps : Z) (burst : Z) : HandlerFunc :=
  {| rps_of := rps; limiter_of := NewIPRateLimiter rps burst;
     error_of := "rate_limit_exceeded" |}.

Definition ScrapeRateLimitMiddleware (rps : Z) (burst : Z) : HandlerFunc :=
  {| rps_of := rps; limiter_of := NewIPRateLimiter rps burst;
     error_of := "scrape_rate_limit_exceeded" |}.

(** [limiter.GetLimiter(ip).Allow()], the admission decision of both
    closures for the identity [ip]. *)
Definition AllowIP (i : IPRateLimiter) (ip : string) (now : Time) (h : heap)
  : bool * IPRateLimiter * heap :=
  let '(ipLimiter, i', h') := GetLimiter i ip now h in
  let '(ok, h'') := Allow ipLimiter now h' in
  (ok, i', h'').

(** Successive requests of one identity, at the instants [ts]. *)
Fixpoint AllowEach (i : IPRateLimiter) (ip : string) (ts : list Time) (h : heap)
  : list bool * IPRateLimiter * heap :=
  match ts with
  | [] => ([], i, h)
  | now :: ts' =>
      let '(ok, i', h') := AllowIP i ip now h in
      let '(oks, i'', h'') := AllowEach i' ip ts' h' in
      (ok :: oks, i'', h'')
  end.

(** One request with client address [ip] through a closure.  [now] is
    the clock reading of [Allow], [now'] that of the later [Tokens]. *)
Definition serve (m : HandlerFunc) (ip : string) (now now' : Time) (h : heap)
  : outcome * HandlerFunc * heap :=
  let '(ipLimiter, i', h') := GetLimiter (limiter_of m) ip now h in
  let m' := {| rps_of := rps_of m; limiter_of := i'; error_of := error_of m |} in
  let '(ok, h'') := Allow ipLimiter now h' in
  if negb ok then (Abort 429 (rps_of m) 0 60 (error_of m), m', h'')
  else
    let remaining := int (Tokens ipLimiter now' h'') in
    (Next (rps_of m) remaining, m', h'').

(** The bucket an identity has in a registry, if any. *)
Definition bucket (i : IPRateLimiter) (h : heap) (ip : string)
  : option rate.Limiter :=
  limiters i !! ip ≫= fun limiter => h !! limiter.

(** Well-formed registries: every pointer has its object, and two
    identities never share one. *)
Definition registry_ok (i : IPRateLimiter) (h : heap) : Prop :=
  (∀ ip p, limiters i !! ip = Some p → (p < length h)%nat) ∧
  (∀ ip1 ip2 p, limiters i !! ip1 = Some p → limiters i !! ip2 = Some p → ip1 = ip2).

(** Two registries that share no limiter object. *)
Definition separate (i j : IPRateLimiter) : Prop :=
  ∀ ip1 ip2 p, limiters i !! ip1 = Some p → limiters j !! ip2 = Some p → False.

(** A bucket with the parameters of the tier. *)
Definition tier_bucket (i : IPRateLimiter) (lim : rate.Limiter) : Prop :=
  rate.capacity lim = burst i ∧ rate.refillRatePerSecond lim = limit i.

(** The [gin.H] of a refusal, by its three keys. *)
Record refusal : Type := mkRefusal {
  body_error : string;
  body_message : string;
  body_retry_after : Z;
}.

(** What a closure writes to the [*gin.Context]: the headers in the
    order of the [c.Header] calls, with their values as the strings the
    code formats, and the status and body of [c.JSON] followed by
    [c.Abort()], or [None] for [c.Next()]. *)
Record gin_Context : Type := mkContext {
  Header : list (string * string);
  aborted : option (Z * refusal);
}.

(** The closure returned by [RateLimitMiddleware], line by line, over
    the captured [rps] and [limiter].  [now] is the clock reading of
    [GetLimiter] and [Allow], [now'] that of the later [Tokens]. *)
Definition RateLimitMiddleware_func (rps : Z) (limiter : IPRateLimiter)
    (ip : string) (now now' : Time) (h : heap)
  : gin_Context * IPRateLimiter * heap :=
  let '(ipLimiter, limiter', h') := GetLimiter limiter ip now h in
  let '(ok, h'') := Allow ipLimiter now h' in
  if negb ok then
    ({| Header := [("X-RateLimit-Limit", pretty rps);
                   ("X-RateLimit-Remaining", "0");
                   ("Retry-After", "60")];
        aborted :=
          Some (429,
                {| body_error := "rate_limit_exceeded";
                   body_message := "Too many requests. Please try again later.";
                   body_retry_after := 60 |}) |},
     limiter', h'')
  else
    let remaining := int (Tokens ipLimiter now' h'') in
    ({| Header := [("X-RateLimit-Limit", pretty rps);
                   ("X-RateLimit-Remaining", pretty remaining)];
        aborted := None |},
     limiter', h'').

(** The closure returned by [ScrapeRateLimitMiddleware], line by line. *)
Definition ScrapeRateLimitMiddleware_func (rps : Z) (limiter : IPRateLimiter)
    (ip : string) (now now' : Time) (h : heap)
  : gin_Context * IPRateLimiter * heap :=
  let '(ipLimiter, limiter', h') := GetLimiter limiter ip now h in
  let '(ok, h'') := Allow ipLimiter now h' in
  if negb ok then
    ({| Header := [("X-RateLimit-Limit", pretty rps);
                   ("X-RateLimit-Remaining", "0");
                   ("Retry-After", "60")];
        aborted :=
          Some (429,
                {| body_error := "scrape_rate_limit_exceeded";
                   body_message :=
                     "Scraping rate limit exceeded. Please wait before making more requests.";
                   body_retry_after := 60 |}) |},
     limiter', h'')
  else
    let remaining := int (Tokens ipLimiter now' h'') in
    ({| Header := [("X-RateLimit-Limit", pretty rps);
                   ("X-RateLimit-Remaining", pretty remaining)];
        aborted := None |},
     limiter', h'').

(** What [outcome] keeps of a [gin_Context]: the headers as numbers,
    the status, the error name and [retry_after]. *)
Definition outcome_of (c : gin_Context) (o : outcome) : Prop :=
  match o with
  | Abort st l r ra e =>
      Header c = [("X-RateLimit-Limit", pretty l);
                  ("X-RateLimit-Remaining", pretty r);
                  ("Retry-After", pretty ra)] ∧
      ∃ b, aborted c = Some (st, b) ∧ body_error b = e ∧ body_retry_after b = ra
  | Next l r =>
      Header c = [("X-RateLimit-Limit", pretty l);
                  ("X-RateLimit-Remaining", pretty r)] ∧
      aborted c = None
  end.

End middleware.

(** ** Packages [os], [strconv] and [strings] (the parts the service uses) *)

Module os.

(** [os.Getenv]: the value of the variable, [""] when it is not set.  The
    environment of the process is a map from names to values. *)
Definition Getenv (env : gmap string string) (key : string) : string :=
  default "" (env !! key).

End os.

Module strconv.
Import Stdlib.Strings.Ascii.

(** The range of [int] (64 bits). *)
Definition MinInt : Z := - 2 ^ 63.
Definition MaxInt : Z := 2 ^ 63 - 1.

Definition is_digit (c : Ascii.ascii) : bool :=
  (48 <=? Z.of_N (Ascii.N_of_ascii c)) && (Z.of_N (Ascii.N_of_ascii c) <=? 57).

Definition digit_value (c : Ascii.ascii) : Z := Z.of_N (Ascii.N_of_ascii c) - 48.

(** The value of a string of decimal digits, [None] when a character is
    not a digit. *)
Fixpoint digits_value (acc : Z) (s : string) : option Z :=
  match s with
  | EmptyString => Some acc
  | String c s' =>
      if is_digit c then digits_value (acc * 10 + digit_value c) s' else None
  end.

(** [strconv.Atoi]: an optional sign and one or more decimal digits, in
    the range of [int]; [None] is a non-nil error (the callers in the
    service use the number only when the error is nil). *)
Definition Atoi (s : string) : option Z :=
  match s with
  | EmptyString => None
  | String c s' =>
      let '(neg, body) :=
        if Ascii.eqb c "-"%char then (true, s')
        else if Ascii.eqb c "+"%char then (false, s')
        else (false, s) in
      match body with
      | EmptyString => None
      | _ =>
          match digits_value 0 body with
          | None => None
          | Some n =>
              let v := if neg : bool then - n else n in
              if (MinInt <=? v) && (v <=? MaxInt) then Some v else None
          end
      end
  end.

End strconv.

Module strings.

(** [strings.Contains] *)
Fixpoint Contains (s substr : string) : bool :=
  String.prefix substr s ||
  match s with
  | EmptyString => false
  | String _ s' => Contains s' substr
  end.

(** [strings.ReplaceAll] for a non-empty [old]: the occurrences of [old]
    are found from the left and do not overlap.  [skip] counts the
    characters of an occurrence that are still to be dropped. *)
Fixpoint replace_from (old new : string) (skip : nat) (s : string) : string :=
  match s with
  | EmptyString => EmptyString
  | String c s' =>
      match skip with
      | S k => replace_from old new k s'
      | O =>
          if String.prefix old s
          then new +:+ replace_from old new (String.length old - 1) s'
          else String c (replace_from old new 0 s')
      end
  end.

Definition ReplaceAll (s old new : string) : string := replace_from old new 0 s.

End strings.

(** ** Package [config] *)

Module config.
Import time.

Record Config : Type := mkConfig {
  Port : string;
  CacheTTL : Duration;
  ScrapeTimeout : Duration;
  UserAgent : string;
  LogLevel : string;
  RateLimitPerMinute : Z;
  ScrapeRateLimit : Z;
  TrustedProxies : string;
}.

(** The configuration that [Load] returns when no variable of the
    environment is set ([TestLoad_DefaultValues]). *)
Definition defaults : Config :=
  {| Port := "8080";
     CacheTTL := 6 * Hour;
     ScrapeTimeout := 30 * Second;
     UserAgent := "Mozilla/5.0 (X11; Linux x86_64) AppleWebKit/537.36 (KHTML, like Gecko) Chrome/91.0.4472.124 Safari/537.36";
     LogLevel := "info";
     RateLimitPerMinute := 60;
     ScrapeRateLimit := 10;
     TrustedProxies := "127.0.0.1,::1" |}.

(** The configurations that section 7 of the specification calls valid:
    positive TTL, capacities and rates. *)
Definition valid_ttl (ttl : Duration) : Prop := 0 < ttl.

Definition valid_tier (rps burst : Z) : Prop := 0 < rps ∧ 0 < burst.

(** *** Reading the environment

[ParseDuration] is [time.ParseDuration], with [None] for a non-nil
error, and [env] the environment of the process. *)
Section Env.
Variable ParseDuration : string → option Duration.
Variable env : gmap string string.

Definition getEnv (key defaultValue : string) : string :=
  let value := os.Getenv env key in
  if negb (String.eqb value "") then value else defaultValue.

Definition getDurationEnv (key : string) (defaultValue : Duration) : Duration :=
  let value := os.Getenv env key in
  if negb (String.eqb value "") then
    match ParseDuration value with
    | Some duration => duration
    | None => defaultValue
    end
  else defaultValue.

Definition getIntEnv (key : string) (defaultValue : Z) : Z :=
  let value := os.Getenv env key in
  if negb (String.eqb value "") then
    match strconv.Atoi value with
    | Some intValue => intValue
    | None => defaultValue
    end
  else defaultValue.

Definition Load : Config :=
  {| Port := getEnv "PORT" "8080";
     CacheTTL := getDurationEnv "CACHE_TTL" (6 * Hour);
     ScrapeTimeout := getDurationEnv "SCRAPE_TIMEOUT" (30 * Second);
     UserAgent := getEnv "USER_AGENT" "Mozilla/5.0 (X11; Linux x86_64) AppleWebKit/537.36 (KHTML, like Gecko) Chrome/91.0.4472.124 Safari/537.36";
     LogLevel := getEnv "LOG_LEVEL" "info";
     RateLimitPerMinute := getIntEnv "RATE_LIMIT_PER_MINUTE" 60;
     ScrapeRateLimit := getIntEnv "SCRAPE_RATE_LIMIT" 10;
     TrustedProxies := getEnv "TRUSTED_PROXIES" "127.0.0.1,::1" |}.

End Env.

(** The variables that [Load] reads. *)
Definition variables : list string :=
  ["PORT"; "CACHE_TTL"; "SCRAPE_TIMEOUT"; "USER_AGENT"; "LOG_LEVEL";
   "RATE_LIMIT_PER_MINUTE"; "SCRAPE_RATE_LIMIT"; "TRUSTED_PROXIES"].

End config.

(** ** Package [scraper]

The network and the HTML documents are outside the service: the HTTP
client of a [Scraper] is a function from a URL to the response (status
and body) or an error, and a document is known through what the two
parsers of [parser.go] read from it.  An error is its message, and a
result with an error is a sum, [inl] of the value or [inr] of the error.
A nil slice and an empty slice are both the empty list. *)

Module scraper.
Import time.

(** [min] *)
Definition min (a b : Z) : Z := if a <? b then a else b.

Record Book : Type := mkBook {
  Title : string;
  Author : string;
  Rating : Z;
  DateRead : string;
  CoverURL : string;
  GoodreadsURL : string;
}.

(** The first match of the regular expression [\d+]: the longest run of
    decimal digits that starts at the first digit of the string. *)
Fixpoint take_digits (s : string) : string :=
  match s with
  | EmptyString => EmptyString
  | String c s' =>
      if strconv.is_digit c then String c (take_digits s') else EmptyString
  end.

Fixpoint find_digits (s : string) : string :=
  match s with
  | EmptyString => EmptyString
  | String c s' => if strconv.is_digit c then take_digits s else find_digits s'
  end.

Definition extractNumber (text : string) : Z :=
  let match_ := find_digits (strings.ReplaceAll text "," "") in
  if String.eqb match_ "" then 0
  else
    match strconv.Atoi match_ with
    | Some num => num
    | None => 0
    end.

Section WithFloat.
Context {float64 : Type}.

Record ReadingStats : Type := mkReadingStats {
  UserID : string;
  Username : string;
  TotalBooks : Z;
  BooksThisYear : Z;
  CurrentlyReading : Z;
  AverageRating : float64;
  TotalRatings : Z;
  TotalReviews : Z;
  LastUpdated : Time;
  RecentReads : list Book;
  Favorites : list Book;
  StudyBooks : list Book;
}.

(** [LastUpdated] is [None] for the zero [time.Time]. *)
Record ErrorResponse : Type := mkErrorResponse {
  Error : string;
  Message : string;
  CachedData : bool;
  ErrorLastUpdated : option Time;
}.

(** [interface.go].  A call of [GetReadingStats] returns the statistics
    or an error, as the implementation [Scraper] does; the statistics
    are not changed once returned, so the pointer is the record. *)
Record Interface : Type := mkInterface {
  GetReadingStats : string → ReadingStats + string;
  DebugHTML : string → option string;
  DebugShelf : string → string → option string;
}.

End WithFloat.

Arguments ReadingStats float64 : clear implicits.
Arguments Interface float64 : clear implicits.

(** *** The methods of [Scraper] *)

Module Scraper.

Section WithDocuments.
Context {float64 : Type} {Document : Type}.

(** The zero value of [float64]. *)
Variable zero : float64.

(** [s.client.R().Get(url)] *)
Variable client : string → (Z * string) + string.

(** [goquery.NewDocumentFromReader] on the body of a response. *)
Variable NewDocumentFromReader : string → Document + string.

(** [parseProfileStats] assigns to [TotalRatings], [TotalReviews] and
    [AverageRating] only and always returns a nil error; it is given as
    the new values of the three fields, from the document and the old
    ones. *)
Variable parseProfileStats : Document → Z * Z * float64 → Z * Z * float64.

(** [parseShelfBooks] *)
Variable parseShelfBooks : Document → list Book.

Definition getUserID (username : string) : string * option string :=
  if strings.Contains username "-" then (username, None)
  else ("101839711-kaine"%string, None).

Definition getShelfBooks (userID shelf : string) : list Book + string :=
  let shelfURL :=
    "https://www.goodreads.com/review/list/" +:+ userID +:+ "?shelf=" +:+ shelf in
  match client shelfURL with
  | inr err => inr ("failed to fetch shelf: " +:+ err)
  | inl (status, body) =>
      if negb (status =? 200) then inr ("unexpected status code: " +:+ pretty status)
      else
        match NewDocumentFromReader body with
        | inr err => inr ("failed to parse shelf HTML: " +:+ err)
        | inl doc => inl (parseShelfBooks doc)
        end
  end.

(** [GetReadingStats]; [now] is the reading of [time.Now()]. *)
Definition GetReadingStats (username : string) (now : Time)
  : ReadingStats float64 + string :=
  match getUserID username with
  | (_, Some err) => inr ("failed to get user ID: " +:+ err)
  | (userID, None) =>
      let profileURL := "https://www.goodreads.com/user/show/" +:+ userID in
      match client profileURL with
      | inr err => inr ("failed to fetch profile: " +:+ err)
      | inl (status, body) =>
          if negb (status =? 200) then inr ("unexpected status code: " +:+ pretty status)
          else
            match NewDocumentFromReader body with
            | inr err => inr ("failed to parse HTML: " +:+ err)
            | inl doc =>
                let '(ratings, reviews, average) := parseProfileStats doc (0, 0, zero) in
                let favorites :=
                  match getShelfBooks userID "favorites" with
                  | inr _ => []
                  | inl favorites => favorites
                  end in
                let studyBooks :=
                  match getShelfBooks userID "study" with
                  | inr _ => []
                  | inl studyBooks => studyBooks
                  end in
                let favorites' :=
                  if (Z.of_nat (length favorites) =? 0)
                     && (Z.of_nat (length studyBooks) =? 0)
                  then
                    match getShelfBooks userID "read" with
                    | inr _ => favorites
                    | inl readBooks =>
                        if Z.of_nat (length readBooks) >? 0
                        then take (Z.to_nat (min 10 (Z.of_nat (length readBooks)))) readBooks
                        else favorites
                    end
                  else favorites in
                inl {| UserID := userID; Username := username;
                       TotalBooks := 0; BooksThisYear := 0; CurrentlyReading := 0;
                       AverageRating := average;
                       TotalRatings := ratings; TotalReviews := reviews;
                       LastUpdated := now;
                       RecentReads := []; Favorites := favorites';
                       StudyBooks := studyBooks |}
            end
      end
  end.

End WithDocuments.

End Scraper.

End scraper.

(** ** Package [api]: the two admission tiers of [SetupRoutes] *)

Module api.
Import time config middleware.

(** The middlewares that [SetupRoutes] installs: [v1] on the group
    [/api/v1], [scrapeGroup] on its subgroup of scraping routes. *)
Record Routes : Type := mkRoutes {
  v1 : HandlerFunc;
  scrapeGroup : HandlerFunc;
}.

Definition SetupRoutes (cfg : Config) : Routes :=
  {| v1 := RateLimitMiddleware (RateLimitPerMinute cfg) (RateLimitPerMinute cfg);
     scrapeGroup := ScrapeRateLimitMiddleware (ScrapeRateLimit cfg) (ScrapeRateLimit cfg) |}.

End api.

(** ** Package [api]: the handlers of [handlers.go]

A handler reads and writes the cache of its [Handler] and asks its
scraper; it is a function from the cache before to the response and the
cache after.  The scraper is the [scraper.Interface] value consulted by
the call.  The values that the handlers put into [interface{}] positions
(cache payloads and JSON bodies) are the type [dyn]. *)

Module handlers.
Import time scraper cache middleware api.

Section WithFloat.
Context {float64 : Type}.

#[warnings="-register-all"]
Inductive dyn : Type :=
| DString (s : string)
| DInt (n : Z)
| DFloat (x : float64)
| DTime (t : Time)
| DBooks (books : list Book)
| DStats (stats : ReadingStats float64)
| DErrorResponse (e : ErrorResponse)
| DCounts (m : gmap string Z)
| DH (h : list (string * dyn)).

(** What a handler leaves in the [gin.Context]: the status and the body
    of [c.JSON], and the header [X-Cache] if it set one. *)
Record Response : Type := mkResponse {
  Status : Z;
  XCache : option string;
  Body : option dyn;
}.

Definition len {A} (l : list A) : Z := Z.of_nat (length l).

Definition healthCheck (c : MemoryCache dyn) (now now' : Time) : Response :=
  let cacheStats := Stats c now in
  {| Status := 200; XCache := None;
     Body := Some (DH [("status"%string, DString "healthy");
                       ("timestamp"%string, DTime now');
                       ("cache"%string, DCounts cacheStats)]) |}.

(** In the four caching handlers [now] is the clock reading of
    [h.cache.Get] and [now'] that of [h.cache.Set]. *)
Definition getReadingStats (s : Interface float64) (c : MemoryCache dyn)
    (username : string) (now now' : Time) : Response * MemoryCache dyn :=
  let cacheKey := "stats:" +:+ username in
  match Get c cacheKey now with
  | (Some (DStats stats), true) =>
      ({| Status := 200; XCache := Some "HIT"%string; Body := Some (DStats stats) |}, c)
  | _ =>
      match GetReadingStats s username with
      | inr err =>
          ({| Status := 500; XCache := None;
              Body := Some (DErrorResponse
                {| Error := "scraping_failed";
                   Message := "Failed to scrape reading statistics: " +:+ err;
                   CachedData := false; ErrorLastUpdated := None |}) |}, c)
      | inl stats =>
          ({| Status := 200; XCache := Some "MISS"%string; Body := Some (DStats stats) |},
           Set_ c cacheKey (Some (DStats stats)) now')
      end
  end.

Definition getFavorites (s : Interface float64) (c : MemoryCache dyn)
    (username : string) (now now' : Time) : Response * MemoryCache dyn :=
  let cacheKey := "favorites:" +:+ username in
  match Get c cacheKey now with
  | (Some (DBooks books), true) =>
      ({| Status := 200; XCache := Some "HIT"%string;
          Body := Some (DH [("username"%string, DString username);
                            ("favorites"%string, DBooks books);
                            ("count"%string, DInt (len books))]) |}, c)
  | _ =>
      match GetReadingStats s username with
      | inr err =>
          ({| Status := 500; XCache := None;
              Body := Some (DErrorResponse
                {| Error := "scraping_failed";
                   Message := "Failed to get favorites: " +:+ err;
                   CachedData := false; ErrorLastUpdated := None |}) |}, c)
      | inl stats =>
          ({| Status := 200; XCache := Some "MISS"%string;
              Body := Some (DH [("username"%string, DString username);
                                ("favorites"%string, DBooks (Favorites stats));
                                ("count"%string, DInt (len (Favorites stats)))]) |},
           Set_ c cacheKey (Some (DBooks (Favorites stats))) now')
      end
  end.

Definition getStudyBooks (s : Interface float64) (c : MemoryCache dyn)
    (username : string) (now now' : Time) : Response * MemoryCache dyn :=
  let cacheKey := "study:" +:+ username in
  match Get c cacheKey now with
  | (Some (DBooks books), true) =>
      ({| Status := 200; XCache := Some "HIT"%string;
          Body := Some (DH [("username"%string, DString username);
                            ("study_books"%string, DBooks books);
                            ("count"%string, DInt (len books))]) |}, c)
  | _ =>
      match GetReadingStats s username with
      | inr err =>
          ({| Status := 500; XCache := None;
              Body := Some (DErrorResponse
                {| Error := "scraping_failed";
                   Message := "Failed to get study books: " +:+ err;
                   CachedData := false; ErrorLastUpdated := None |}) |}, c)
      | inl stats =>
          ({| Status := 200; XCache := Some "MISS"%string;
              Body := Some (DH [("username"%string, DString username);
                                ("study_books"%string, DBooks (StudyBooks stats));
                                ("count"%string, DInt (len (StudyBooks stats)))]) |},
           Set_ c cacheKey (Some (DBooks (StudyBooks stats))) now')
      end
  end.

Definition debugHTML (s : Interface float64) (username : string) : Response :=
  match DebugHTML s username with
  | Some err =>
      {| Status := 500; XCache := None;
         Body := Some (DH [("error"%string, DString "debug_failed");
                           ("message"%string, DString err)]) |}
  | None =>
      {| Status := 200; XCache := None;
         Body := Some (DH [("message"%string, DString "Debug output written to console logs");
                           ("username"%string, DString username)]) |}
  end.

Definition debugShelf (s : Interface float64) (username shelf : string) : Response :=
  let userID := "101839711-kaine"%string in
  match DebugShelf s userID shelf with
  | Some err =>
      {| Status := 500; XCache := None;
         Body := Some (DH [("error"%string, DString "debug_failed");
                           ("message"%string, DString err)]) |}
  | None =>
      {| Status := 200; XCache := None;
         Body := Some (DH [("message"%string, DString "Shelf debug output written to console logs");
                           ("username"%string, DString username);
                           ("shelf"%string, DString shelf)]) |}
  end.

Definition getPortfolioData (s : Interface float64) (c : MemoryCache dyn)
    (username : string) (now now' : Time) : Response * MemoryCache dyn :=
  let cacheKey := "portfolio:" +:+ username in
  match Get c cacheKey now with
  | (cached, true) =>
      ({| Status := 200; XCache := Some "HIT"%string; Body := cached |}, c)
  | _ =>
      match GetReadingStats s username with
      | inr err =>
          ({| Status := 500; XCache := None;
              Body := Some (DH [("error"%string, DString "scraping_failed");
                                ("message"%string,
                                 DString ("Failed to get portfolio data: " +:+ err))]) |}, c)
      | inl stats =>
          let portfolioData :=
            DH [("username"%string, DString username);
                ("stats"%string,
                 DH [("total_ratings"%string, DInt (TotalRatings stats));
                     ("total_reviews"%string, DInt (TotalReviews stats));
                     ("average_rating"%string, DFloat (AverageRating stats))]);
                ("favorite_books"%string, DBooks (Favorites stats));
                ("book_count"%string,
                 DH [("favorites"%string, DInt (len (Favorites stats)));
                     ("study"%string, DInt (len (StudyBooks stats)))]);
                ("last_updated"%string, DTime (LastUpdated stats))] in
          ({| Status := 200; XCache := Some "MISS"%string; Body := Some portfolioData |},
           Set_ c cacheKey (Some portfolioData) now')
      end
  end.

(** *** The routes of [SetupRoutes]

A GET request for one of the registered paths, with its path
parameters. *)
Inductive route : Type :=
| Health
| Debug (username : string)
| DebugShelfOf (username shelf : string)
| ReadingStatsOf (username : string)
| FavoritesOf (username : string)
| StudyOf (username : string)
| PortfolioOf (username : string).

(** The routes registered on [scrapeGroup]. *)
Definition limited (r : route) : bool :=
  match r with
  | Health | Debug _ | DebugShelfOf _ _ => false
  | _ => true
  end.

(** The cache key a request reads and writes, if any. *)
Definition cacheKey (r : route) : option string :=
  match r with
  | Health | Debug _ | DebugShelfOf _ _ => None
  | ReadingStatsOf username => Some ("stats:" +:+ username)
  | FavoritesOf username => Some ("favorites:" +:+ username)
  | StudyOf username => Some ("study:" +:+ username)
  | PortfolioOf username => Some ("portfolio:" +:+ username)
  end.

(** The handler registered for a route. *)
Definition handle (s : Interface float64) (c : MemoryCache dyn) (r : route)
    (now now' : Time) : Response * MemoryCache dyn :=
  match r with
  | Health => (healthCheck c now now', c)
  | Debug username => (debugHTML s username, c)
  | DebugShelfOf username shelf => (debugShelf s username shelf, c)
  | ReadingStatsOf username => getReadingStats s c username now now'
  | FavoritesOf username => getFavorites s c username now now'
  | StudyOf username => getStudyBooks s c username now now'
  | PortfolioOf username => getPortfolioData s c username now now'
  end.

(** The state of the server: the two closures of [SetupRoutes] with the
    heap of their limiter objects, and the cache of the [Handler]. *)
Record Server : Type := mkServer {
  routes : Routes;
  limiter_heap : list rate.Limiter;
  store : MemoryCache dyn;
}.

(** The clock readings of one request: of [Allow] and [Tokens] in each
    of the two middlewares, and of the handler. *)
Record Readings : Type := mkReadings {
  at_v1 : Time;
  at_v1_tokens : Time;
  at_scrape : Time;
  at_scrape_tokens : Time;
  at_handler : Time;
  at_handler' : Time;
}.

(** What the client gets: the refusal of a middleware, or the response
    of the handler with the rate limit headers last set, if any. *)
Inductive reply : Type :=
| Refused (o : outcome)
| Served (x_ratelimit : option (Z * Z)) (r : Response).

(** A GET request from the address [ip]: the handlers of the chain of
    its route run in order, and a middleware that aborts ends the
    chain. *)
Definition ServeHTTP (s : Interface float64) (srv : Server) (ip : string)
    (r : route) (clk : Readings) : reply * Server :=
  if limited r then
    let '(o1, m1, h1) :=
      serve (v1 (routes srv)) ip (at_v1 clk) (at_v1_tokens clk) (limiter_heap srv) in
    match o1 with
    | Abort _ _ _ _ _ =>
        (Refused o1,
         {| routes := {| v1 := m1; scrapeGroup := scrapeGroup (routes srv) |};
            limiter_heap := h1; store := store srv |})
    | Next _ _ =>
        let '(o2, m2, h2) :=
          serve (scrapeGroup (routes srv)) ip (at_scrape clk) (at_scrape_tokens clk) h1 in
        match o2 with
        | Abort _ _ _ _ _ =>
            (Refused o2,
             {| routes := {| v1 := m1; scrapeGroup := m2 |};
                limiter_heap := h2; store := store srv |})
        | Next lim rem =>
            let '(resp, c') := handle s (store srv) r (at_handler clk) (at_handler' clk) in
            (Served (Some (lim, rem)) resp,
             {| routes := {| v1 := m1; scrapeGroup := m2 |};
                limiter_heap := h2; store := c' |})
        end
    end
  else
    let '(resp, c') := handle s (store srv) r (at_handler clk) (at_handler' clk) in
    (Served None resp,
     {| routes := routes srv; limiter_heap := limiter_heap srv; store := c' |}).

(** Every entry of the cache holds the kind of value its key stands for. *)
Definition typed (c : MemoryCache dyn) : Prop :=
  ∀ username item,
    (data c !! ("stats:" +:+ username) = Some item →
       ∃ stats, Data item = Some (DStats stats)) ∧
    (data c !! ("favorites:" +:+ username) = Some item →
       ∃ books, Data item = Some (DBooks books)) ∧
    (data c !! ("study:" +:+ username) = Some item →
       ∃ books, Data item = Some (DBooks books)).

End WithFloat.

Arguments dyn float64 : clear implicits.
Arguments Response float64 : clear implicits.
Arguments Server float64 : clear implicits.
Arguments reply float64 : clear implicits.

End handlers.

(** ** The values of the test suites

The scraper mock and the statistics of [TestCaching] and
[TestReadingStatsHandler_Success], with rationals for [float64], and the
server as [main] composes it for a configuration. *)

Module fixtures.
Import time scraper cache middleware config api handlers.

Definition test_book : Book :=
  {| Title := "Test Book"; Author := "Test Author"; Rating := 0; DateRead := "";
     CoverURL := "https://example.com/cover.jpg";
     GoodreadsURL := "https://goodreads.com/book/1" |}.

Definition test_stats : ReadingStats Qc :=
  {| UserID := ""; Username := "testuser";
     TotalBooks := 0; BooksThisYear := 0; CurrentlyReading := 0;
     AverageRating := Q2Qc (418 # 100);
     TotalRatings := 61; TotalReviews := 9;
     LastUpdated := 0;
     RecentReads := []; Favorites := [test_book]; StudyBooks := [] |}.

Definition mock : Interface Qc :=
  {| GetReadingStats := fun _ => inl test_stats;
     DebugHTML := fun _ => None;
     DebugShelf := fun _ _ => None |}.

Definition failing : Interface Qc :=
  {| GetReadingStats := fun _ => inr "timeout"%string;
     DebugHTML := fun _ => Some "timeout"%string;
     DebugShelf := fun _ _ => Some "timeout"%string |}.

(** [main]: the cache with the TTL of the configuration and the routes
    of [SetupRoutes], before any limiter object exists. *)
Definition started (cfg : Config) : Server Qc :=
  {| routes := SetupRoutes cfg;
     limiter_heap := [];
     store := NewMemoryCache (CacheTTL cfg) |}.

(** A configuration with two requests for the general tier and one for
    the scraping tier. *)
Definition strict : Config :=
  {| Port := "8080"; CacheTTL := 6 * Hour; ScrapeTimeout := 30 * Second;
     UserAgent := "TestBot/1.0"; LogLevel := "info";
     RateLimitPerMinute := 2; ScrapeRateLimit := 1;
     TrustedProxies := "127.0.0.1,::1" |}.

Definition at_once (t : Time) : Readings :=
  {| at_v1 := t; at_v1_tokens := t; at_scrape := t; at_scrape_tokens := t;
     at_handler := t; at_handler' := t |}.

(** A network on which every page is fetched with status 200, and
    documents of which the parsers read no statistics and the books
    [books]. *)
Definition online (url : string) : (Z * string) + string := inl (200, ""%string).

Definition offline (url : string) : (Z * string) + string :=
  inr "connection refused"%string.

(** A network on which the shelves "favorites" and "study" are not
    found. *)
Definition only_read (url : string) : (Z * string) + string :=
  if strings.Contains url "shelf=favorites" || strings.Contains url "shelf=study"
  then inl (404, ""%string) else inl (200, ""%string).

Definition reader (body : string) : unit + string := inl tt.

Definition no_stats (doc : unit) (old : Z * Z * Qc) : Z * Z * Qc := old.

Definition shelf_of (books : list Book) (doc : unit) : list Book := books.

End fixtures.

(** * Properties *)

(** ** Instants *)

Lemma After_spec (t u : time.Time) : time.After t u = true ↔ u < t.
Proof. unfold time.After. apply Z.ltb_lt. Qed.

Lemma After_false (t u : time.Time) : time.After t u = false ↔ t ≤ u.
Proof. unfold time.After. apply Z.ltb_ge. Qed.

(** ** Ranging over a map while deleting from it

Both sweeps ([cleanup] of the cache, [CleanupOldEntries] of the
registry) range over a map and delete the current key when a test on the
entry succeeds. *)

Lemma fold_delete_lookup {A} (test : string → A → bool) (m0 m : gmap string A)
    (key : string) :
  map_fold (fun k x (acc : gmap string A) => if test k x then delete k acc else acc)
           m0 m !! key =
    match m !! key with
    | Some x => if test key x then None else m0 !! key
    | None => m0 !! key
    end.
Proof.
  apply (map_fold_weak_ind (fun r m => r !! key =
    match m !! key with
    | Some x => if test key x then None else m0 !! key
    | None => m0 !! key
    end)); clear m.
  - by rewrite lookup_empty.
  - intros k x m r Hk IH.
    destruct (decide (k = key)) as [->|Hne].
    + rewrite lookup_insert_eq, Hk in *.
      destruct (test key x); [by rewrite lookup_delete_eq | done].
    + rewrite lookup_insert_ne by done.
      destruct (test k x); [by rewrite lookup_delete_ne | done].
Qed.

(** ** The cache *)

Section CacheProperties.
Context {V : Type}.
Import time cache.

Implicit Types (c : MemoryCache V) (item : CacheItem V) (key : string)
  (now : Time) (value : @any V).

(** What [Get] returns, by cases on the entry. *)
Lemma Get_Some c key now item :
  data c !! key = Some item →
  Get c key now =
    if bool_decide (now ≤ ExpiresAt item) then (Data item, true) else (None, false).
Proof.
  intros Hl. unfold Get. rewrite Hl.
  destruct (After now (ExpiresAt item)) eqn:E.
  - apply After_spec in E. rewrite bool_decide_eq_false_2; [done | lia].
  - apply After_false in E. by rewrite bool_decide_eq_true_2.
Qed.

Lemma Get_None c key now : data c !! key = None → Get c key now = (None, false).
Proof. intros Hl. unfold Get. by rewrite Hl. Qed.

Lemma Get_found c key now value :
  Get c key now = (value, true) ↔
  ∃ item, data c !! key = Some item ∧ Data item = value ∧ now ≤ ExpiresAt item.
Proof.
  destruct (data c !! key) as [item|] eqn:Hl.
  - rewrite (Get_Some _ _ _ _ Hl). case_bool_decide as Hle; split.
    + intros [= <-]. eauto.
    + intros (item' & [= <-] & <- & _). done.
    + intros [=].
    + intros (item' & [= <-] & _ & Hle'). lia.
  - rewrite (Get_None _ _ _ Hl). split; [intros [=] | intros (? & [=] & _)].
Qed.

Lemma Get_miss c key now :
  (¬ ∃ item, data c !! key = Some item ∧ now ≤ ExpiresAt item) →
  Get c key now = (None, false).
Proof.
  intros Hno. destruct (data c !! key) as [item|] eqn:Hl.
  - rewrite (Get_Some _ _ _ _ Hl). case_bool_decide; [|done].
    exfalso. apply Hno. eauto.
  - by apply Get_None.
Qed.

(** One tick of [cleanup] keeps exactly the entries that are not expired. *)
Lemma cleanup_lookup c now key :
  data (cleanup c now) !! key =
    match data c !! key with
    | Some item => if After now (ExpiresAt item) then None else Some item
    | None => None
    end.
Proof.
  unfold cleanup; simpl.
  rewrite (fold_delete_lookup (fun _ item => After now (ExpiresAt item))).
  destruct (data c !! key) as [item|]; [|done].
  by destruct (After _ _).
Qed.

Lemma cleanup_filter c now :
  data (cleanup c now) = filter (fun kv => live_at now kv.2) (data c).
Proof.
  apply map_eq; intros key. rewrite cleanup_lookup.
  destruct (data c !! key) as [item|] eqn:Hl.
  - destruct (After now (ExpiresAt item)) eqn:E.
    + apply After_spec in E. symmetry. apply map_lookup_filter_None. right.
      intros item' Hl'. unfold live_at; simpl. rewrite Hl in Hl'. injection Hl' as <-. lia.
    + apply After_false in E. symmetry. apply map_lookup_filter_Some. done.
  - symmetry. apply map_lookup_filter_None. by left.
Qed.

(** The counter of [Stats] is the number of expired entries. *)
Lemma expired_count (m : gmap string (CacheItem V)) now :
  map_fold (fun (_ : string) item (expired : Z) =>
              if After now (ExpiresAt item) then expired + 1 else expired) 0 m
  = Z.of_nat (size (filter (fun kv => expired_at now kv.2) m)).
Proof.
  apply (map_fold_weak_ind (fun (r : Z) (m : gmap string (CacheItem V)) =>
    r = Z.of_nat (size (filter (fun kv => expired_at now kv.2) m)))); clear m.
  - by rewrite map_filter_empty, map_size_empty.
  - intros k x m r Hk ->.
    destruct (After now (ExpiresAt x)) eqn:E.
    + apply After_spec in E. rewrite map_filter_insert_True by done.
      rewrite map_size_insert_None; [lia|].
      apply map_lookup_filter_None. by left.
    + apply After_false in E.
      rewrite map_filter_insert_not' ; [done | unfold expired_at; simpl; lia |].
      intros y Hy. congruence.
Qed.

Lemma live_expired_partition (m : gmap string (CacheItem V)) now :
  (size (filter (fun kv => live_at now kv.2) m)
   + size (filter (fun kv => expired_at now kv.2) m) = size m)%nat.
Proof.
  induction m as [|k x m Hk IH] using map_ind.
  - by rewrite !map_filter_empty, map_size_empty.
  - rewrite map_size_insert_None by done.
    destruct (decide (ExpiresAt x < now)) as [Hlt|Hge].
    + rewrite (map_filter_insert_True (fun kv => expired_at now kv.2)) by done.
      rewrite (map_filter_insert_not' (fun kv => live_at now kv.2));
        [| unfold live_at; simpl; lia | intros y Hy; congruence].
      rewrite map_size_insert_None; [lia|].
      apply map_lookup_filter_None. by left.
    + rewrite (map_filter_insert_True (fun kv => live_at now kv.2))
        by (unfold live_at; simpl; lia).
      rewrite (map_filter_insert_not' (fun kv => expired_at now kv.2));
        [| done | intros y Hy; congruence].
      rewrite map_size_insert_None; [lia|].
      apply map_lookup_filter_None. by left.
Qed.

(** Keys stay absent along a history that never sets them. *)
Lemma run_absent c (h : list (op V * Time)) key :
  data c !! key = None →
  Forall (fun e => ¬ sets_key key e) h →
  data (run c h) !! key = None.
Proof.
  intros Hc Hh. revert c Hc. induction Hh as [|[o t] h Ho _ IH]; intros c Hc; [done|].
  simpl. apply IH. destruct o as [k|k v|k| |]; simpl in *; try done.
  - rewrite lookup_insert_ne; [done|]. intros ->. by apply Ho.
  - destruct (decide (k = key)) as [->|Hne];
      [by rewrite lookup_delete_eq | by rewrite lookup_delete_ne].
  - pose proof (cleanup_lookup c t key) as Hcl. rewrite Hc in Hcl. exact Hcl.
Qed.

End CacheProperties.

Section CacheClaims.
Context {V : Type}.
Import time cache.

Implicit Types (c : MemoryCache V) (item : CacheItem V) (key : string)
  (now : Time) (value : @any V).

(** C1 (as the code has it): [Get] returns [(v, true)] exactly when an
    entry for the key is present with value [v] and the current instant is
    not after its [ExpiresAt], that is [now <= ExpiresAt]; in every other
    case it returns [(nil, false)].  In particular it returns not-found for
    a key that no call of the history has set, and for a deleted key. *)
Theorem Get_visible_until_expiry :
  (∀ c key now value,
     Get c key now = (value, true) ↔
     ∃ item, data c !! key = Some item ∧ Data item = value ∧ now ≤ ExpiresAt item) ∧
  (∀ c key now,
     (¬ ∃ item, data c !! key = Some item ∧ now ≤ ExpiresAt item) →
     Get c key now = (None, false)) ∧
  (∀ ttl (h : list (op V * Time)) key now,
     Forall (fun e => ¬ sets_key key e) h →
     Get (run (NewMemoryCache ttl) h) key now = (None, false)) ∧
  (∀ c key now, Get (Delete c key) key now = (None, false)).
Proof.
  split; [exact Get_found|]. split; [exact Get_miss|]. split.
  - intros ttl h key now Hh. apply Get_None, run_absent; [|done].
    simpl. apply lookup_empty.
  - intros c key now. apply Get_None. simpl. apply lookup_delete_eq.
Qed.

(** C3: [Set] stores, under the key, the value with
    [ExpiresAt = now + ttl], whatever entry the key had before (a second
    [Set] leaves the store as if the first had not happened), and changes
    no other key and not the TTL. *)
Theorem Set_overwrites :
  ∀ c key value now,
    data (Set_ c key value now) !! key
      = Some {| Data := value; ExpiresAt := now + ttl c |} ∧
    (∀ value0 now0,
       data (Set_ (Set_ c key value0 now0) key value now)
         = data (Set_ c key value now)) ∧
    (∀ key', key' ≠ key → data (Set_ c key value now) !! key' = data c !! key') ∧
    ttl (Set_ c key value now) = ttl c.
Proof.
  intros c key value now. unfold Set_, Add; simpl. repeat split.
  - apply lookup_insert_eq.
  - intros value0 now0. apply insert_insert_eq.
  - intros key' Hne. by apply lookup_insert_ne.
Qed.

(** C4 (as the code has it): [Stats] reports as [total] the number of
    entries in the store, as [expired] the number of those with
    [ExpiresAt < now], and as [active] their difference, which is the
    number of entries with [now <= ExpiresAt]; so [active + expired =
    total]. *)
Theorem Stats_counts :
  ∀ c now,
    let total := Z.of_nat (size (data c)) in
    let expired := Z.of_nat (size (filter (fun kv => ExpiresAt kv.2 < now) (data c))) in
    let active := Z.of_nat (size (filter (fun kv => now ≤ ExpiresAt kv.2) (data c))) in
    Stats c now !! "total" = Some total ∧
    Stats c now !! "expired" = Some expired ∧
    Stats c now !! "active" = Some active ∧
    active = total - expired ∧
    active + expired = total.
Proof.
  intros c now total expired active.
  assert (active + expired = total) as Hsum.
  { unfold total, expired, active.
    pose proof (live_expired_partition (data c) now) as Hp.
    unfold live_at, expired_at in Hp. lia. }
  unfold Stats. rewrite expired_count. fold total.
  change (Z.of_nat (size (filter (fun kv => expired_at now kv.2) (data c))))
    with expired.
  assert (active = total - expired) as Hact by lia.
  split; [by rewrite lookup_insert_eq|].
  split; [by rewrite lookup_insert_ne, lookup_insert_ne, lookup_insert_eq|].
  split; [|done].
  rewrite lookup_insert_ne, lookup_insert_eq by done. by rewrite Hact.
Qed.

(** C5 (as the code has it): one tick of the sweep removes exactly the
    entries with [ExpiresAt < now]; an entry is in the store afterwards if
    and only if it was there before, unchanged, with [now <= ExpiresAt]. *)
Theorem cleanup_removes_expired :
  ∀ c now key item,
    data (cleanup c now) !! key = Some item ↔
    data c !! key = Some item ∧ now ≤ ExpiresAt item.
Proof.
  intros c now key item. rewrite cleanup_lookup.
  destruct (data c !! key) as [item'|];
    [| split; [intros Hn | intros [Hn _]]; discriminate Hn].
  destruct (After now (ExpiresAt item')) eqn:E.
  - apply After_spec in E. split; [done|]. intros [Heq Hle].
    injection Heq as ->. lia.
  - apply After_false in E. split; [intros [= ->]; done | intros [Heq _]; done].
Qed.

(** C7 (as the code has it): a [Get] of the key that follows its [Set]
    with nothing in between returns the value that was set exactly when
    its instant is not after the instant of the [Set] plus the TTL of
    the cache; so it does at the instant of the [Set] when the TTL is
    not negative, and at no instant from the [Set] on when the TTL is
    negative. *)
Theorem Get_after_Set :
  ∀ c key value now now',
    (Get (Set_ c key value now) key now' = (value, true) ↔ now' ≤ now + ttl c) ∧
    (0 ≤ ttl c → Get (Set_ c key value now) key now = (value, true)) ∧
    (ttl c < 0 → now ≤ now' → Get (Set_ c key value now) key now' = (None, false)).
Proof.
  intros c key value now now'.
  assert (data (Set_ c key value now) !! key
          = Some {| Data := value; ExpiresAt := now + ttl c |}) as Hl
    by (unfold Set_, Add; simpl; apply lookup_insert_eq).
  assert (∀ t, t ≤ now + ttl c → Get (Set_ c key value now) key t = (value, true))
    as Hin.
  { intros t Hle. apply Get_found. eexists. split; [exact Hl|done]. }
  assert (∀ t, now + ttl c < t → Get (Set_ c key value now) key t = (None, false))
    as Hout.
  { intros t Hlt. apply Get_miss. intros (item & Hi & Hle).
    rewrite Hl in Hi. injection Hi as <-. simpl in Hle. lia. }
  split; [|split].
  - split; [|apply Hin].
    intros Hg. destruct (Z_le_gt_dec now' (now + ttl c)) as [|Hgt]; [done|].
    rewrite Hout in Hg by lia. discriminate.
  - intros Hnn. apply Hin. lia.
  - intros Hneg Hle. apply Hout. lia.
Qed.

End CacheClaims.

(** [TestMemoryCache_SetAndGet]: TTL of one hour, [Get] at the instant of
    the [Set]. *)
Lemma Get_after_Set_test :
  0 ≤ cache.ttl (@cache.NewMemoryCache string (1 * time.Hour)) ∧
  cache.Get (cache.Set_ (cache.NewMemoryCache (1 * time.Hour)) "key1"
               (Some "value1"%string) 0) "key1" 0
    = (Some "value1"%string, true).
Proof.
  split; [vm_compute; discriminate|].
  apply (proj1 (proj2 (Get_after_Set (cache.NewMemoryCache (1 * time.Hour)) "key1"
                         (Some "value1"%string) 0 0))).
  vm_compute; discriminate.
Defined.

(** With [CACHE_TTL=-1s], which [NewMemoryCache] accepts, the [Get] at
    the instant of the [Set] misses; with a TTL of zero the [Get] one
    nanosecond after the [Set] misses. *)
Lemma Get_after_Set_ttl_run_out :
  cache.Get (cache.Set_ (cache.NewMemoryCache (-1 * time.Second)) "key1"
               (Some "value1"%string) 0) "key1" 0
    = (None, false) ∧
  cache.Get (cache.Set_ (cache.NewMemoryCache (-1 * time.Second)) "key1"
               (Some "value1"%string) 0) "key1" 0
    ≠ (Some "value1"%string, true) ∧
  cache.Get (cache.Set_ (cache.NewMemoryCache 0) "key1"
               (Some "value1"%string) 0) "key1" (1 * time.Nanosecond)
    ≠ (Some "value1"%string, true).
Proof.
  split; [vm_compute; reflexivity|]. split; vm_compute; discriminate.
Qed.

(** The entry of [expiration_test] expires at [100 * Millisecond]; a [Get]
    at that very instant still returns it, although [now < ExpiresAt] does
    not hold. *)
Lemma Get_at_expiry_instant :
  let now := 100 * time.Millisecond in
  cache.Get cache.expiration_test "key1" now = (Some "value1"%string, true) ∧
  ¬ (∃ item, cache.data cache.expiration_test !! "key1" = Some item ∧
             cache.Data item = Some "value1"%string ∧
             now < cache.ExpiresAt item).
Proof.
  split; [reflexivity|].
  intros (item & Hl & _ & Hlt). vm_compute in Hl. injection Hl as <-.
  vm_compute in Hlt. discriminate.
Qed.

(** At the instant [100 * Millisecond] the store of [expiration_test] has
    one entry with [ExpiresAt <= now], and [Stats] reports no expired
    entry and one active entry. *)
Lemma Stats_at_expiry_instant :
  let now := 100 * time.Millisecond in
  size (filter (fun kv => cache.ExpiresAt kv.2 ≤ now)
          (cache.data cache.expiration_test)) = 1%nat ∧
  cache.Stats cache.expiration_test now !! "expired" = Some 0 ∧
  cache.Stats cache.expiration_test now !! "active" = Some 1.
Proof. vm_compute. done. Qed.

(** A tick of the sweep at the instant [100 * Millisecond] keeps the
    entry of [expiration_test], whose [ExpiresAt <= now]. *)
Lemma cleanup_at_expiry_instant :
  let now := 100 * time.Millisecond in
  ∃ item, cache.data cache.expiration_test !! "key1" = Some item ∧
          cache.ExpiresAt item ≤ now ∧
          cache.data (cache.cleanup cache.expiration_test now) !! "key1" = Some item.
Proof.
  eexists. split; [reflexivity|]. split; [vm_compute; discriminate|].
  vm_compute. reflexivity.
Qed.

(** ** Exact arithmetic on token counts *)

Section Rationals.
Local Open Scope Qc_scope.

Lemma this_plus (x y : Qc) : (this (x + y) == this x + this y)%Q.
Proof. simpl. apply Qred_correct. Qed.

Lemma this_mult (x y : Qc) : (this (x * y) == this x * this y)%Q.
Proof. simpl. apply Qred_correct. Qed.

Lemma this_opp (x : Qc) : (this (- x) == - this x)%Q.
Proof. simpl. apply Qred_correct. Qed.

Lemma this_minus (x y : Qc) : (this (x - y) == this x - this y)%Q.
Proof. unfold Qcminus. rewrite this_plus, this_opp. reflexivity. Qed.

End Rationals.

(** Moves a goal on [Qc] to [Q] and leaves it to linear arithmetic. *)
Ltac qc_push :=
  unfold Qcle, Qclt in *;
  try apply Qc_is_canon;
  repeat match goal with
  | H : context [this (_ - _)%Qc] |- _ => rewrite this_minus in H
  | H : context [this (_ + _)%Qc] |- _ => rewrite this_plus in H
  | H : context [this (_ * _)%Qc] |- _ => rewrite this_mult in H
  | H : context [this (- _)%Qc] |- _ => rewrite this_opp in H
  | |- context [this (_ - _)%Qc] => rewrite this_minus
  | |- context [this (_ + _)%Qc] => rewrite this_plus
  | |- context [this (_ * _)%Qc] => rewrite this_mult
  | |- context [this (- _)%Qc] => rewrite this_opp
  end;
  change (this 1%Qc) with 1%Q in *; change (this 0%Qc) with 0%Q in *.

Ltac qc_lra := qc_push; lra.

Section TokenBucket.
Import time rate.
Local Open Scope Qc_scope.

Implicit Types (lim : Limiter) (now : Time).

Lemma Qcleb_true (x y : Qc) : Qcleb x y = true ↔ x ≤ y.
Proof. unfold Qcleb, Qcle. apply Qle_bool_iff. Qed.

Lemma Qcleb_false (x y : Qc) : Qcleb x y = false ↔ y < x.
Proof.
  rewrite <- not_true_iff_false, Qcleb_true. split.
  - apply Qcnot_le_lt.
  - intros Hlt Hle. by apply (Qclt_not_le _ _ Hlt).
Qed.

Lemma Qcmin_l (x y : Qc) : x ≤ y → Qcmin x y = x.
Proof. intros Hle. unfold Qcmin. apply Qcleb_true in Hle. by rewrite Hle. Qed.

Lemma Qcmin_r (x y : Qc) : y ≤ x → Qcmin x y = y.
Proof.
  intros Hle. unfold Qcmin. destruct (Qcleb x y) eqn:E; [|done].
  apply Qcleb_true in E. by apply Qcle_antisym.
Qed.

Lemma Qcmin_diag (x : Qc) : Qcmin x x = x.
Proof. apply Qcmin_l, Qcle_refl. Qed.

Lemma Qc_of_Z_Second_neq_0 : Qc_of_Z Second ≠ 0.
Proof. intros H. apply (f_equal this) in H. discriminate H. Qed.

Lemma Qc_of_Z_plus (a b : Z) : Qc_of_Z (a + b) = Qc_of_Z a + Qc_of_Z b.
Proof.
  apply Qc_is_canon. rewrite this_plus. simpl. by rewrite inject_Z_plus.
Qed.

Lemma Qc_of_Z_le (a b : Z) : (a ≤ b)%Z → Qc_of_Z a ≤ Qc_of_Z b.
Proof.
  intros Hle. unfold Qcle.
  change (this (Qc_of_Z a)) with (inject_Z a).
  change (this (Qc_of_Z b)) with (inject_Z b).
  by rewrite <- Zle_Qle.
Qed.

Lemma Qc_of_Z_nonneg (a : Z) : (0 ≤ a)%Z → 0 ≤ Qc_of_Z a.
Proof.
  intros Hle. unfold Qcle.
  change (this (Qc_of_Z a)) with (inject_Z a).
  change (this 0) with (inject_Z 0).
  by rewrite <- Zle_Qle.
Qed.

Lemma elapsed_refl now : elapsed now now = 0.
Proof.
  unfold elapsed. rewrite Z.sub_diag. apply Qc_is_canon.
  unfold Qcdiv. rewrite this_mult. reflexivity.
Qed.

Lemma elapsed_Second now : elapsed now (Add now Second) = 1.
Proof.
  unfold elapsed, Add.
  replace (now + Second - now)%Z with Second by lia.
  apply Qcmult_inv_r, Qc_of_Z_Second_neq_0.
Qed.

Lemma elapsed_trans (t0 t1 t2 : Time) :
  elapsed t0 t1 + elapsed t1 t2 = elapsed t0 t2.
Proof.
  unfold elapsed, Qcdiv. rewrite <- Qcmult_plus_distr_l, <- Qc_of_Z_plus.
  do 2 f_equal. lia.
Qed.

Lemma elapsed_nonneg (t0 t1 : Time) : (t0 ≤ t1)%Z → 0 ≤ elapsed t0 t1.
Proof.
  intros Hle. unfold elapsed, Qcdiv.
  apply Qcmult_nonneg_nonneg.
  - apply Qc_of_Z_nonneg. lia.
  - apply Qclt_le_weak, Qcinv_pos. unfold Qclt. reflexivity.
Qed.

(** Less than one token accrues at [rps] tokens per second in a span
    shorter than one [rps]-th of a second. *)
Lemma accrued_lt_1 (t0 t1 : Time) (rps : Z) :
  ((t1 - t0) * rps < Second)%Z → elapsed t0 t1 * Qc_of_Z rps < 1.
Proof.
  intros Hlt. unfold elapsed, Qcdiv.
  rewrite Zlt_Qlt, inject_Z_mult in Hlt.
  unfold Qclt. rewrite !this_mult.
  change (this (Qc_of_Z (t1 - t0))) with (inject_Z (t1 - t0)).
  change (this (Qc_of_Z rps)) with (inject_Z rps).
  change (this (/ Qc_of_Z Second)) with (1 # 1000000000)%Q.
  change (inject_Z Second) with (1000000000 # 1)%Q in Hlt.
  change (this 1) with 1%Q. lra.
Qed.

Lemma accrued_nonneg (t0 t1 : Time) (rps : Z) :
  (t0 ≤ t1)%Z → (0 ≤ rps)%Z → 0 ≤ elapsed t0 t1 * Qc_of_Z rps.
Proof.
  intros Ht Hr. apply Qcmult_nonneg_nonneg; [by apply elapsed_nonneg|].
  by apply Qc_of_Z_nonneg.
Qed.

(** [Allow], by cases on the refilled token count. *)
Lemma Allow_granted lim now :
  1 ≤ tokens (refill lim now) →
  Allow lim now =
    (true, {| capacity := capacity lim;
              refillRatePerSecond := refillRatePerSecond lim;
              tokens := tokens (refill lim now) - 1;
              lastRefill := now |}).
Proof. intros Hle. unfold Allow. apply Qcleb_true in Hle. by rewrite Hle. Qed.

Lemma Allow_denied lim now :
  tokens (refill lim now) < 1 → Allow lim now = (false, refill lim now).
Proof. intros Hlt. unfold Allow. apply Qcleb_false in Hlt. by rewrite Hlt. Qed.

Lemma Allow_capacity lim now : capacity (Allow lim now).2 = capacity lim.
Proof. unfold Allow. by destruct (Qcleb _ _). Qed.

Lemma Allow_rate lim now :
  refillRatePerSecond (Allow lim now).2 = refillRatePerSecond lim.
Proof. unfold Allow. by destruct (Qcleb _ _). Qed.

Lemma Allow_lastRefill lim now : lastRefill (Allow lim now).2 = now.
Proof. unfold Allow. by destruct (Qcleb _ _). Qed.

End TokenBucket.

(** ** The registry of buckets *)

Section Registry.
Import time middleware.

Implicit Types (i j : IPRateLimiter) (h : heap) (ip : string) (now : Time)
  (p q : ptr).

Lemma GetLimiter_hit i ip now h p :
  limiters i !! ip = Some p → GetLimiter i ip now h = (p, i, h).
Proof. intros Hl. unfold GetLimiter. by rewrite Hl. Qed.

Lemma GetLimiter_miss i ip now h :
  limiters i !! ip = None →
  GetLimiter i ip now h =
    (length h,
     {| limiters := <[ip := length h]> (limiters i);
        limit := limit i; burst := burst i |},
     h ++ [rate.NewLimiter (limit i) (burst i) now]).
Proof. intros Hl. unfold GetLimiter. by rewrite Hl. Qed.

Lemma registry_ok_empty rps b h : registry_ok (NewIPRateLimiter rps b) h.
Proof. split; simpl; intros *; by rewrite lookup_empty. Qed.

Lemma separate_sym i j : separate i j → separate j i.
Proof. intros Hs ip1 ip2 p H1 H2. exact (Hs ip2 ip1 p H2 H1). Qed.

Lemma bucket_Some i h ip p :
  limiters i !! ip = Some p → bucket i h ip = h !! p.
Proof. intros Hl. unfold bucket. by rewrite Hl. Qed.

Lemma bucket_None i h ip : limiters i !! ip = None → bucket i h ip = None.
Proof. intros Hl. unfold bucket. by rewrite Hl. Qed.

Lemma GetLimiter_ok i ip now h :
  registry_ok i h →
  registry_ok (GetLimiter i ip now h).1.2 (GetLimiter i ip now h).2.
Proof.
  intros [Hdom Hinj]. destruct (limiters i !! ip) as [p|] eqn:Hl.
  - rewrite (GetLimiter_hit _ _ _ _ _ Hl). by split.
  - rewrite (GetLimiter_miss _ _ _ _ Hl). simpl. split; simpl.
    + intros ip' q. rewrite length_app; simpl.
      destruct (decide (ip = ip')) as [<-|Hne].
      * rewrite lookup_insert_eq. intros [= <-]. lia.
      * rewrite lookup_insert_ne by done. intros Hq. apply Hdom in Hq. lia.
    + intros ip1 ip2 q.
      destruct (decide (ip = ip1)) as [<-|Hne1];
        destruct (decide (ip = ip2)) as [<-|Hne2]; [done | | |].
      * rewrite lookup_insert_eq, lookup_insert_ne by done.
        intros [= <-] Hq. apply Hdom in Hq. lia.
      * rewrite lookup_insert_eq, lookup_insert_ne by done.
        intros Hq [= <-]. apply Hdom in Hq. lia.
      * rewrite !lookup_insert_ne by done. apply Hinj.
Qed.

(** The admission decision of an identity, in terms of its bucket: the
    identity's pointer [p] afterwards, with the bucket [Allow] left in it,
    and every other object of the heap as before. *)
Lemma AllowIP_spec i ip now h :
  registry_ok i h →
  let lim := default (rate.NewLimiter (limit i) (burst i) now) (bucket i h ip) in
  ∃ i' h' p,
    AllowIP i ip now h = ((rate.Allow lim now).1, i', h') ∧
    limiters i' = <[ip := p]> (limiters i) ∧
    limit i' = limit i ∧ burst i' = burst i ∧
    (limiters i !! ip = Some p ∨ limiters i !! ip = None ∧ p = length h) ∧
    (length h ≤ length h')%nat ∧
    h' !! p = Some (rate.Allow lim now).2 ∧
    (∀ q, q ≠ p → (q < length h)%nat → h' !! q = h !! q).
Proof.
  intros [Hdom Hinj] lim. unfold AllowIP.
  destruct (limiters i !! ip) as [p|] eqn:Hl.
  - rewrite (GetLimiter_hit _ _ _ _ _ Hl).
    pose proof (Hdom _ _ Hl) as Hp.
    destruct (lookup_lt_is_Some_2 h p Hp) as [lim0 Hlim0].
    assert (lim = lim0) as ->.
    { unfold lim. by rewrite (bucket_Some _ _ _ _ Hl), Hlim0. }
    unfold Allow. rewrite Hlim0.
    destruct (rate.Allow lim0 now) as [ok lim'] eqn:E. simpl.
    exists i, (<[p := lim']> h), p. repeat split.
    + symmetry. by apply insert_id.
    + by left.
    + by rewrite length_insert.
    + by apply list_lookup_insert_eq.
    + intros q Hq _. by apply list_lookup_insert_ne.
  - rewrite (GetLimiter_miss _ _ _ _ Hl).
    assert (lim = rate.NewLimiter (limit i) (burst i) now) as ->.
    { unfold lim. by rewrite (bucket_None _ _ _ Hl). }
    set (lim0 := rate.NewLimiter (limit i) (burst i) now).
    unfold Allow. rewrite list_lookup_middle by done.
    destruct (rate.Allow lim0 now) as [ok lim'] eqn:E. simpl.
    eexists _, _, (length h). repeat split; simpl.
    + by right.
    + rewrite length_insert, length_app. lia.
    + apply list_lookup_insert_eq. rewrite length_app; simpl. lia.
    + intros q Hq Hlt.
      rewrite list_lookup_insert_ne by done. by apply lookup_app_l.
Qed.

Lemma AllowIP_ok i ip now h :
  registry_ok i h →
  registry_ok (AllowIP i ip now h).1.2 (AllowIP i ip now h).2.
Proof.
  intros Hok. pose proof Hok as [Hdom Hinj].
  destruct (AllowIP_spec i ip now h Hok)
    as (i' & h' & p & -> & Hi' & _ & _ & Hp & Hlen & Hp' & _). simpl.
  assert (∀ ip' q, limiters i !! ip' = Some q → ip' ≠ ip → q ≠ p) as Hfresh.
  { intros ip' q Hq Hne ->. destruct Hp as [Hp|[_ ->]].
    - apply Hne. by apply (Hinj ip' ip p).
    - apply Hdom in Hq. lia. }
  split; rewrite Hi'.
  - intros ip' q. destruct (decide (ip = ip')) as [<-|Hne].
    + rewrite lookup_insert_eq. intros [= <-]. by apply lookup_lt_Some in Hp'.
    + rewrite lookup_insert_ne by done. intros Hq. apply Hdom in Hq. lia.
  - intros ip1 ip2 q.
    destruct (decide (ip = ip1)) as [<-|Hne1];
      destruct (decide (ip = ip2)) as [<-|Hne2]; [done | | |].
    + rewrite lookup_insert_eq, lookup_insert_ne by done.
      intros [= <-] Hq. by destruct (Hfresh ip2 p Hq).
    + rewrite lookup_insert_eq, lookup_insert_ne by done.
      intros Hq [= <-]. by destruct (Hfresh ip1 p Hq).
    + rewrite !lookup_insert_ne by done. apply Hinj.
Qed.

(** The bucket of the identity after its admission decision, and the
    decision itself. *)
Lemma AllowIP_bucket i ip now h :
  registry_ok i h →
  let lim := default (rate.NewLimiter (limit i) (burst i) now) (bucket i h ip) in
  (AllowIP i ip now h).1.1 = (rate.Allow lim now).1 ∧
  bucket (AllowIP i ip now h).1.2 (AllowIP i ip now h).2 ip
    = Some (rate.Allow lim now).2.
Proof.
  intros Hok lim.
  destruct (AllowIP_spec i ip now h Hok)
    as (i' & h' & p & -> & Hi' & _ & _ & _ & _ & Hp' & _). simpl.
  split; [done|]. unfold bucket. rewrite Hi', lookup_insert_eq. done.
Qed.

Lemma AllowIP_bucket_Some i ip now h lim :
  registry_ok i h → bucket i h ip = Some lim →
  (AllowIP i ip now h).1.1 = (rate.Allow lim now).1 ∧
  bucket (AllowIP i ip now h).1.2 (AllowIP i ip now h).2 ip
    = Some (rate.Allow lim now).2.
Proof.
  intros Hok Hb. pose proof (AllowIP_bucket i ip now h Hok) as H.
  by rewrite Hb in H.
Qed.

Lemma AllowIP_bucket_None i ip now h :
  registry_ok i h → bucket i h ip = None →
  let lim := rate.NewLimiter (limit i) (burst i) now in
  (AllowIP i ip now h).1.1 = (rate.Allow lim now).1 ∧
  bucket (AllowIP i ip now h).1.2 (AllowIP i ip now h).2 ip
    = Some (rate.Allow lim now).2.
Proof.
  intros Hok Hb. pose proof (AllowIP_bucket i ip now h Hok) as H.
  by rewrite Hb in H.
Qed.

(** Frame: the buckets of the other identities of the registry. *)
Lemma AllowIP_other i ip ip' now h :
  registry_ok i h → ip' ≠ ip →
  bucket (AllowIP i ip now h).1.2 (AllowIP i ip now h).2 ip' = bucket i h ip'.
Proof.
  intros Hok Hne. pose proof Hok as [Hdom Hinj].
  destruct (AllowIP_spec i ip now h Hok)
    as (i' & h' & p & -> & Hi' & _ & _ & Hp & _ & _ & Hfr). simpl.
  unfold bucket. rewrite Hi', lookup_insert_ne by done.
  destruct (limiters i !! ip') as [q|] eqn:Hq; [simpl|done].
  apply Hfr; [|by apply Hdom in Hq].
  intros ->. destruct Hp as [Hp|[_ ->]].
  - apply Hne. by apply (Hinj ip' ip p).
  - apply Hdom in Hq. lia.
Qed.

(** Frame: a registry that shares no object with [i]. *)
Lemma AllowIP_separate i j ip now h :
  registry_ok i h → registry_ok j h → separate i j →
  registry_ok j (AllowIP i ip now h).2 ∧
  separate (AllowIP i ip now h).1.2 j ∧
  ∀ ip', bucket j (AllowIP i ip now h).2 ip' = bucket j h ip'.
Proof.
  intros Hok [Hdomj Hinjj] Hsep.
  destruct (AllowIP_spec i ip now h Hok)
    as (i' & h' & p & -> & Hi' & _ & _ & Hp & Hlen & _ & Hfr). simpl.
  assert (∀ ip' q, limiters j !! ip' = Some q → q ≠ p) as Hfresh.
  { intros ip' q Hq ->. destruct Hp as [Hp|[_ ->]].
    - exact (Hsep _ _ _ Hp Hq).
    - apply Hdomj in Hq. lia. }
  split; [|split].
  - split; [|done]. intros ip' q Hq. apply Hdomj in Hq. lia.
  - intros ip1 ip2 q. rewrite Hi'.
    destruct (decide (ip = ip1)) as [<-|Hne].
    + rewrite lookup_insert_eq. intros [= <-] Hq. by destruct (Hfresh ip2 p Hq).
    + rewrite lookup_insert_ne by done. apply Hsep.
  - intros ip'. unfold bucket.
    destruct (limiters j !! ip') as [q|] eqn:Hq; [simpl|done].
    apply Hfr; [by apply (Hfresh ip') | by apply Hdomj in Hq].
Qed.

(** The decision depends on the registry and the heap only through the
    bucket of the identity and the parameters of the tier. *)
Lemma AllowIP_decision i1 h1 i2 h2 ip now :
  registry_ok i1 h1 → registry_ok i2 h2 →
  limit i1 = limit i2 → burst i1 = burst i2 →
  bucket i1 h1 ip = bucket i2 h2 ip →
  (AllowIP i1 ip now h1).1.1 = (AllowIP i2 ip now h2).1.1.
Proof.
  intros Hok1 Hok2 Hl Hb Hbk.
  destruct (AllowIP_bucket i1 ip now h1 Hok1) as [-> _].
  destruct (AllowIP_bucket i2 ip now h2 Hok2) as [-> _].
  by rewrite Hl, Hb, Hbk.
Qed.

Lemma AllowIP_params i ip now h :
  limit (AllowIP i ip now h).1.2 = limit i ∧
  burst (AllowIP i ip now h).1.2 = burst i.
Proof.
  unfold AllowIP, GetLimiter.
  destruct (limiters i !! ip) as [p|]; simpl.
  - by destruct (Allow p now h).
  - by destruct (Allow _ now _).
Qed.

End Registry.

(** ** Sequences of requests of one identity *)

Section Requests.
Import time middleware.

Implicit Types (i j : IPRateLimiter) (h : heap) (ip : string) (now : Time)
  (ts : list Time).

Lemma AllowEach_cons i ip now ts h :
  AllowEach i ip (now :: ts) h =
    ((AllowIP i ip now h).1.1
       :: (AllowEach (AllowIP i ip now h).1.2 ip ts (AllowIP i ip now h).2).1.1,
     (AllowEach (AllowIP i ip now h).1.2 ip ts (AllowIP i ip now h).2).1.2,
     (AllowEach (AllowIP i ip now h).1.2 ip ts (AllowIP i ip now h).2).2).
Proof.
  simpl. destruct (AllowIP i ip now h) as [[ok i'] h']. simpl.
  by destruct (AllowEach i' ip ts h') as [[oks i''] h''].
Qed.

Lemma AllowEach_ok i ip ts h :
  registry_ok i h →
  registry_ok (AllowEach i ip ts h).1.2 (AllowEach i ip ts h).2.
Proof.
  revert i h. induction ts as [|now ts IH]; intros i h Hok; [done|].
  rewrite AllowEach_cons; simpl. by apply IH, AllowIP_ok.
Qed.

Lemma AllowEach_params i ip ts h :
  limit (AllowEach i ip ts h).1.2 = limit i ∧
  burst (AllowEach i ip ts h).1.2 = burst i.
Proof.
  revert i h. induction ts as [|now ts IH]; intros i h; [done|].
  rewrite AllowEach_cons; simpl.
  destruct (IH (AllowIP i ip now h).1.2 (AllowIP i ip now h).2) as [-> ->].
  apply AllowIP_params.
Qed.

Lemma AllowEach_other i ip ip' ts h :
  registry_ok i h → ip' ≠ ip →
  bucket (AllowEach i ip ts h).1.2 (AllowEach i ip ts h).2 ip' = bucket i h ip'.
Proof.
  revert i h. induction ts as [|now ts IH]; intros i h Hok Hne; [done|].
  rewrite AllowEach_cons; simpl.
  rewrite IH by (by try apply AllowIP_ok). by apply AllowIP_other.
Qed.

Lemma AllowEach_separate i j ip ts h :
  registry_ok i h → registry_ok j h → separate i j →
  registry_ok j (AllowEach i ip ts h).2 ∧
  separate (AllowEach i ip ts h).1.2 j ∧
  ∀ ip', bucket j (AllowEach i ip ts h).2 ip' = bucket j h ip'.
Proof.
  revert i h. induction ts as [|now ts IH]; intros i h Hoki Hokj Hsep; [done|].
  rewrite AllowEach_cons; simpl.
  destruct (AllowIP_separate i j ip now h Hoki Hokj Hsep) as (Hokj' & Hsep' & Hfr).
  destruct (IH _ _ (AllowIP_ok i ip now h Hoki) Hokj' Hsep') as (? & ? & Hfr').
  split; [done|]. split; [done|]. intros ip'. by rewrite Hfr', Hfr.
Qed.

(** Every bucket of a registry has the parameters of its tier. *)
Lemma AllowIP_tier i ip now h :
  registry_ok i h →
  (∀ ip' lim, bucket i h ip' = Some lim → tier_bucket i lim) →
  ∀ ip' lim,
    bucket (AllowIP i ip now h).1.2 (AllowIP i ip now h).2 ip' = Some lim →
    tier_bucket (AllowIP i ip now h).1.2 lim.
Proof.
  intros Hok Hall ip' lim. unfold tier_bucket.
  destruct (AllowIP_params i ip now h) as [-> ->].
  destruct (decide (ip' = ip)) as [->|Hne].
  - destruct (AllowIP_bucket i ip now h Hok) as [_ ->]. intros [= <-].
    rewrite Allow_capacity, Allow_rate.
    destruct (bucket i h ip) as [lim0|] eqn:Hb; simpl; [by apply (Hall ip)|done].
  - rewrite AllowIP_other by done. apply Hall.
Qed.

(** The closures decide by [AllowIP]: the request is passed on when it
    is admitted and aborted with status 429, no remaining quota and a
    retry hint of 60 seconds when it is not. *)
Lemma serve_decision (m : HandlerFunc) ip (now now' : Time) h :
  (serve m ip now now' h).1.2 =
    {| rps_of := rps_of m; limiter_of := (AllowIP (limiter_of m) ip now h).1.2;
       error_of := error_of m |} ∧
  (serve m ip now now' h).2 = (AllowIP (limiter_of m) ip now h).2 ∧
  (serve m ip now now' h).1.1 =
    if (AllowIP (limiter_of m) ip now h).1.1
    then Next (rps_of m)
           (int (Tokens (GetLimiter (limiter_of m) ip now h).1.1 now'
                   (AllowIP (limiter_of m) ip now h).2))
    else Abort 429 (rps_of m) 0 60 (error_of m).
Proof.
  unfold serve, AllowIP.
  destruct (GetLimiter (limiter_of m) ip now h) as [[p i'] h']. simpl.
  destruct (Allow p now h') as [[|] h'']; done.
Qed.



End Requests.

(** ** Admission control *)

Section AdmissionClaims.
Import time middleware.
Local Open Scope Qc_scope.

Implicit Types (i j : IPRateLimiter) (h : heap) (ip : string) (now : Time)
  (ts : list Time) (lim : rate.Limiter).

(** A fresh bucket of capacity 2 admits two requests and refuses the
    third when less than one token accrues from the first to the third. *)
Lemma fresh_bucket_three_requests (rps : Z) (t1 t2 t3 : Time) :
  (0 ≤ rps)%Z → (t1 ≤ t2)%Z → (t2 ≤ t3)%Z → ((t3 - t1) * rps < Second)%Z →
  let b0 := rate.NewLimiter (Qc_of_Z rps) 2 t1 in
  let b1 := (rate.Allow b0 t1).2 in
  let b2 := (rate.Allow b1 t2).2 in
  (rate.Allow b0 t1).1 = true ∧
  (rate.Allow b1 t2).1 = true ∧
  (rate.Allow b2 t3).1 = false.
Proof.
  intros Hr H12 H23 Hlt b0 b1 b2.
  pose proof (accrued_lt_1 t1 t3 rps Hlt) as H13.
  pose proof (accrued_nonneg t1 t2 rps H12 Hr) as Hp12.
  pose proof (accrued_nonneg t2 t3 rps H23 Hr) as Hp23.
  rewrite <- (elapsed_trans t1 t2 t3), Qcmult_plus_distr_l in H13.
  set (p12 := rate.elapsed t1 t2 * Qc_of_Z rps) in *.
  set (p23 := rate.elapsed t2 t3 * Qc_of_Z rps) in *.
  (* first request *)
  assert (rate.tokens (rate.refill b0 t1) = Qc_of_Z 2) as Hf0.
  { unfold b0, rate.refill, rate.NewLimiter; simpl.
    rewrite elapsed_refl, Qcmult_0_l, Qcplus_0_r. apply Qcmin_diag. }
  assert (rate.Allow b0 t1 =
            (true, {| rate.capacity := 2; rate.refillRatePerSecond := Qc_of_Z rps;
                      rate.tokens := Qc_of_Z 2 - 1; rate.lastRefill := t1 |})) as HA0.
  { rewrite Allow_granted; [by rewrite Hf0 | rewrite Hf0]. unfold Qcle. discriminate. }
  (* second request *)
  assert (rate.tokens (rate.refill b1 t2) = Qc_of_Z 2 - 1 + p12) as Hf1.
  { unfold b1. rewrite HA0. unfold rate.refill; simpl. fold p12.
    apply Qcmin_r. unfold Qcle in *. qc_push.
    change (this (Qc_of_Z 2)) with 2%Q. lra. }
  assert (rate.Allow b1 t2 =
            (true, {| rate.capacity := 2; rate.refillRatePerSecond := Qc_of_Z rps;
                      rate.tokens := Qc_of_Z 2 - 1 + p12 - 1; rate.lastRefill := t2 |})) as HA1.
  { rewrite Allow_granted.
    - rewrite Hf1. unfold b1. by rewrite HA0.
    - rewrite Hf1. qc_push. change (this (Qc_of_Z 2)) with 2%Q. lra. }
  (* third request *)
  assert (rate.tokens (rate.refill b2 t3) = Qc_of_Z 2 - 1 + p12 - 1 + p23) as Hf2.
  { unfold b2. rewrite HA1. unfold rate.refill; simpl. fold p23.
    apply Qcmin_r. qc_push. change (this (Qc_of_Z 2)) with 2%Q. lra. }
  rewrite HA0, HA1. split; [done|]. split; [done|].
  rewrite Allow_denied; [done|].
  rewrite Hf2. qc_push. change (this (Qc_of_Z 2)) with 2%Q. lra.
Qed.

(** C2: the admission decision of an identity first refills the
    identity's bucket (a full one if the identity has none yet) by the
    elapsed time times the refill rate, capped at the capacity; it then
    admits and takes exactly one token when at least one is there, and
    refuses and leaves the count as it is otherwise.  With capacity 2 and
    less than one token accruing from the first to the third request, two
    requests of an identity are admitted and the third is refused. *)
Theorem AllowIP_token_bucket :
  (∀ i h ip now,
     registry_ok i h →
     let lim := default (rate.NewLimiter (limit i) (burst i) now) (bucket i h ip) in
     let filled :=
       rate.Qcmin (Qc_of_Z (rate.capacity lim))
         (rate.tokens lim
          + rate.elapsed (rate.lastRefill lim) now * rate.refillRatePerSecond lim) in
     ∃ lim',
       bucket (AllowIP i ip now h).1.2 (AllowIP i ip now h).2 ip = Some lim' ∧
       rate.capacity lim' = rate.capacity lim ∧
       rate.refillRatePerSecond lim' = rate.refillRatePerSecond lim ∧
       rate.lastRefill lim' = now ∧
       (1 ≤ filled →
        (AllowIP i ip now h).1.1 = true ∧ rate.tokens lim' = filled - 1) ∧
       (filled < 1 →
        (AllowIP i ip now h).1.1 = false ∧ rate.tokens lim' = filled)) ∧
  (∀ (rps : Z) ip (t1 t2 t3 : Time) h,
     (0 ≤ rps)%Z → (t1 ≤ t2)%Z → (t2 ≤ t3)%Z → ((t3 - t1) * rps < Second)%Z →
     (AllowEach (NewIPRateLimiter rps 2) ip [t1; t2; t3] h).1.1
       = [true; true; false]).
Proof.
  split.
  - intros i h ip now Hok lim filled.
    destruct (AllowIP_bucket i ip now h Hok) as [Hdec Hbk]. fold lim in Hdec, Hbk.
    exists (rate.Allow lim now).2.
    split; [done|]. split; [apply Allow_capacity|].
    split; [apply Allow_rate|]. split; [apply Allow_lastRefill|].
    rewrite Hdec. split; intros Hf.
    + by rewrite Allow_granted.
    + by rewrite Allow_denied.
  - intros rps ip t1 t2 t3 h Hr H12 H23 Hlt.
    destruct (fresh_bucket_three_requests rps t1 t2 t3 Hr H12 H23 Hlt)
      as (HA0 & HA1 & HA2).
    set (i0 := NewIPRateLimiter rps 2).
    pose proof (registry_ok_empty rps 2 h) as Hok0. fold i0 in Hok0.
    rewrite !AllowEach_cons. cbn [fst snd AllowEach].
    (* first request: the identity has no bucket *)
    destruct (AllowIP_bucket_None i0 ip t1 h Hok0) as [Hd1 Hb1];
      [by apply bucket_None, lookup_empty|].
    change (limit i0) with (Qc_of_Z rps) in Hd1, Hb1.
    change (burst i0) with 2%Z in Hd1, Hb1.
    pose proof (AllowIP_ok i0 ip t1 h Hok0) as Hok1.
    destruct (AllowIP_params i0 ip t1 h) as [Hl1 Hbu1].
    set (i1 := (AllowIP i0 ip t1 h).1.2) in *.
    set (h1 := (AllowIP i0 ip t1 h).2) in *.
    (* second request *)
    destruct (AllowIP_bucket_Some i1 ip t2 h1 _ Hok1 Hb1) as [Hd2 Hb2].
    pose proof (AllowIP_ok i1 ip t2 h1 Hok1) as Hok2.
    set (i2 := (AllowIP i1 ip t2 h1).1.2) in *.
    set (h2 := (AllowIP i1 ip t2 h1).2) in *.
    (* third request *)
    destruct (AllowIP_bucket_Some i2 ip t3 h2 _ Hok2 Hb2) as [Hd3 _].
    rewrite Hd1, Hd2, Hd3. by rewrite HA0, HA1, HA2.
Qed.

End AdmissionClaims.

Section TierClaims.
Import time middleware config api.
Local Open Scope Qc_scope.

Implicit Types (i j : IPRateLimiter) (h : heap) (ip : string) (now : Time)
  (ts : list Time) (lim : rate.Limiter) (cfg : Config).

(** A drained bucket whose rate is its capacity per second is full again
    one second later. *)
Lemma drained_full_after_Second lim (n : Z) :
  rate.capacity lim = n → rate.refillRatePerSecond lim = Qc_of_Z n →
  rate.tokens lim = 0 →
  rate.Tokens lim (Add (rate.lastRefill lim) Second) = Qc_of_Z n.
Proof.
  intros Hc Hr Ht. unfold rate.Tokens, rate.refill; simpl.
  rewrite Hc, Hr, Ht, elapsed_Second, Qcplus_0_l, Qcmult_1_l.
  apply Qcmin_diag.
Qed.

(** C6: [NewIPRateLimiter rps burst] keeps [rps] as the refill rate, in
    tokens per second, of the buckets it creates, and [burst] as their
    capacity.  [SetupRoutes] passes [RateLimitPerMinute] as both for the
    general tier and [ScrapeRateLimit] as both for the scraping tier, so a
    drained bucket of either tier is back at its capacity one second
    later. *)
Theorem SetupRoutes_rate_is_per_second :
  (∀ (rps b : Z) ip now h,
     limit (NewIPRateLimiter rps b) = Qc_of_Z rps ∧
     burst (NewIPRateLimiter rps b) = b ∧
     ∃ lim,
       (GetLimiter (NewIPRateLimiter rps b) ip now h).2
         !! (GetLimiter (NewIPRateLimiter rps b) ip now h).1.1 = Some lim ∧
       rate.refillRatePerSecond lim = Qc_of_Z rps ∧
       rate.capacity lim = b ∧
       rate.elapsed now (Add now Second) * rate.refillRatePerSecond lim
         = Qc_of_Z rps) ∧
  (∀ cfg,
     let general := limiter_of (v1 (SetupRoutes cfg)) in
     let scraping := limiter_of (scrapeGroup (SetupRoutes cfg)) in
     limit general = Qc_of_Z (RateLimitPerMinute cfg) ∧
     burst general = RateLimitPerMinute cfg ∧
     limit scraping = Qc_of_Z (ScrapeRateLimit cfg) ∧
     burst scraping = ScrapeRateLimit cfg ∧
     ∀ i lim,
       i = general ∨ i = scraping →
       tier_bucket i lim → rate.tokens lim = 0 →
       rate.Tokens lim (Add (rate.lastRefill lim) Second)
         = Qc_of_Z (rate.capacity lim)).
Proof.
  split.
  - intros rps b ip now h. split; [done|]. split; [done|].
    rewrite GetLimiter_miss by apply lookup_empty. cbn [fst snd].
    eexists. split; [by apply list_lookup_middle|].
    split; [done|]. split; [done|].
    cbn [rate.refillRatePerSecond rate.NewLimiter limit NewIPRateLimiter].
    by rewrite elapsed_Second, Qcmult_1_l.
  - intros cfg general scraping. repeat split.
    intros i lim Hi [Hc Hr] Ht.
    apply drained_full_after_Second; [done| |done].
    rewrite Hr, Hc. by destruct Hi as [-> | ->].
Qed.

(** C8: [GetLimiter] returns the bucket the identity has; when it has
    none it allocates exactly one, full, with the parameters of the tier,
    and records it for the identity.  Later calls for the identity return
    that same object and allocate nothing, and no two identities share a
    bucket. *)
Theorem GetLimiter_get_or_create :
  ∀ i ip now h,
    registry_ok i h →
    let p := (GetLimiter i ip now h).1.1 in
    let i' := (GetLimiter i ip now h).1.2 in
    let h' := (GetLimiter i ip now h).2 in
    (∀ q, limiters i !! ip = Some q → p = q ∧ i' = i ∧ h' = h) ∧
    (limiters i !! ip = None →
       p = length h ∧
       h' = h ++ [rate.NewLimiter (limit i) (burst i) now] ∧
       limiters i' = <[ip := p]> (limiters i) ∧
       size (limiters i') = S (size (limiters i)) ∧
       ∃ lim, h' !! p = Some lim ∧
              rate.tokens lim = Qc_of_Z (rate.capacity lim) ∧
              tier_bucket i lim) ∧
    limiters i' !! ip = Some p ∧
    (∀ now' h'', GetLimiter i' ip now' h'' = (p, i', h'')) ∧
    registry_ok i' h'.
Proof.
  intros i ip now h Hok p i' h'.
  assert (limiters i' !! ip = Some p) as Hp.
  { unfold i', p. destruct (limiters i !! ip) as [q|] eqn:Hl.
    - by rewrite (GetLimiter_hit _ _ _ _ _ Hl).
    - rewrite (GetLimiter_miss _ _ _ _ Hl). simpl. apply lookup_insert_eq. }
  split; [|split; [|split; [done|split]]].
  - intros q Hl. unfold p, i', h'. by rewrite (GetLimiter_hit _ _ _ _ _ Hl).
  - intros Hl. unfold p, i', h'. rewrite (GetLimiter_miss _ _ _ _ Hl).
    cbn [fst snd limiters]. repeat split.
    + by apply map_size_insert_None.
    + eexists. split; [by apply list_lookup_middle|]. done.
  - intros now' h''. by apply GetLimiter_hit.
  - by apply GetLimiter_ok.
Qed.

(** C9: the decision for an identity depends on the state only through
    the bucket of that identity in its tier.  The requests of an identity
    change no bucket but its own, so they leave the decision for any
    other identity of the tier as it would have been; and they change
    nothing in a registry that shares no bucket with theirs, as the two
    registries of [SetupRoutes] do not, whatever the identities. *)
Theorem AllowIP_isolated :
  (∀ i1 h1 i2 h2 ip now,
     registry_ok i1 h1 → registry_ok i2 h2 →
     limit i1 = limit i2 → burst i1 = burst i2 →
     bucket i1 h1 ip = bucket i2 h2 ip →
     (AllowIP i1 ip now h1).1.1 = (AllowIP i2 ip now h2).1.1) ∧
  (∀ i h ipA ipB ts now,
     registry_ok i h → ipA ≠ ipB →
     let i' := (AllowEach i ipA ts h).1.2 in
     let h' := (AllowEach i ipA ts h).2 in
     bucket i' h' ipB = bucket i h ipB ∧
     (AllowIP i' ipB now h').1.1 = (AllowIP i ipB now h).1.1) ∧
  (∀ i j h ipA ipB ts now,
     registry_ok i h → registry_ok j h → separate i j →
     let i' := (AllowEach i ipA ts h).1.2 in
     let h' := (AllowEach i ipA ts h).2 in
     registry_ok j h' ∧ separate i' j ∧
     bucket j h' ipB = bucket j h ipB ∧
     (AllowIP j ipB now h').1.1 = (AllowIP j ipB now h).1.1) ∧
  (∀ cfg h,
     let general := limiter_of (v1 (SetupRoutes cfg)) in
     let scraping := limiter_of (scrapeGroup (SetupRoutes cfg)) in
     registry_ok general h ∧ registry_ok scraping h ∧
     separate general scraping ∧ separate scraping general).
Proof.
  split; [exact AllowIP_decision|]. split; [|split].
  - intros i h ipA ipB ts now Hok Hne i' h'.
    assert (bucket i' h' ipB = bucket i h ipB) as Hb
      by (by apply AllowEach_other).
    split; [done|].
    destruct (AllowEach_params i ipA ts h) as [Hl Hbu].
    apply AllowIP_decision; [by apply AllowEach_ok | done ..].
  - intros i j h ipA ipB ts now Hoki Hokj Hsep i' h'.
    destruct (AllowEach_separate i j ipA ts h Hoki Hokj Hsep) as (Hokj' & Hsep' & Hfr).
    split; [done|]. split; [done|]. split; [apply Hfr|].
    by apply AllowIP_decision.
  - intros cfg h general scraping.
    split; [apply registry_ok_empty|]. split; [apply registry_ok_empty|].
    split; intros ip1 ip2 p Hl; simpl in Hl; by rewrite lookup_empty in Hl.
Qed.

End TierClaims.

(** ** Construction *)

Section Construction.
Context {V : Type}.
Import time cache middleware config.

(** C10 (as the code has it): neither constructor looks at its
    arguments.  [NewMemoryCache] returns an empty cache with the given TTL
    for every duration, and [NewIPRateLimiter] an empty registry with the
    given rate and burst for every two integers; there is no failure path,
    and the fresh components answer their calls. *)
Theorem constructors_accept_every_configuration :
  ∀ (d : Duration) (rps b : Z),
    data (@NewMemoryCache V d) = ∅ ∧
    ttl (@NewMemoryCache V d) = d ∧
    (∀ key now, Get (@NewMemoryCache V d) key now = (None, false)) ∧
    limiters (NewIPRateLimiter rps b) = ∅ ∧
    limit (NewIPRateLimiter rps b) = Qc_of_Z rps ∧
    burst (NewIPRateLimiter rps b) = b ∧
    (∀ h, registry_ok (NewIPRateLimiter rps b) h) ∧
    (∀ ip now h,
       (AllowIP (NewIPRateLimiter rps b) ip now h).1.1
         = (rate.Allow (rate.NewLimiter (Qc_of_Z rps) b now) now).1).
Proof.
  intros d rps b.
  split; [done|]. split; [done|].
  split; [intros key now; apply Get_None, lookup_empty|].
  split; [done|]. split; [done|]. split; [done|].
  split; [intros h; apply registry_ok_empty|].
  intros ip now h.
  destruct (AllowIP_bucket_None (NewIPRateLimiter rps b) ip now h) as [Hd _];
      [apply registry_ok_empty | by apply bucket_None, lookup_empty | done].
Qed.

End Construction.

(** ** The properties at the inputs of the test suite *)

Import time.

(** A key that the history never sets ([TestMemoryCache_SetAndGet] asks
    for ["nonexistent"] after a [Set] of ["key1"]). *)
Lemma Get_never_set_test :
  Forall (fun e => ¬ cache.sets_key "nonexistent" e)
    [(cache.OpSet "key1" (Some "value1"%string), 0); (cache.OpCleanup, 5)] ∧
  cache.Get (cache.run (cache.NewMemoryCache (1 * Hour))
               [(cache.OpSet "key1" (Some "value1"%string), 0); (cache.OpCleanup, 5)])
    "nonexistent" 7 = (None, false).
Proof.
  assert (Forall (fun e => ¬ @cache.sets_key string "nonexistent" e)
            [(cache.OpSet "key1" (Some "value1"%string), 0); (cache.OpCleanup, 5)])
    as Hh.
  { repeat constructor; simpl; [discriminate | tauto]. }
  split; [exact Hh|].
  exact (proj1 (proj2 (proj2 Get_visible_until_expiry)) (1 * Hour) _ "nonexistent" 7 Hh).
Defined.

(** [TestRateLimitMiddleware_ExceedsLimit]: rate 2, burst 2, three
    requests of one address within two microseconds. *)
Lemma AllowIP_token_bucket_test :
  (0 ≤ 2 ∧ 0 ≤ 1000 ∧ 1000 ≤ 2000 ∧ (2000 - 0) * 2 < Second) ∧
  (middleware.AllowEach (middleware.NewIPRateLimiter 2 2) "192.0.2.1"
     [0; 1000; 2000] []).1.1 = [true; true; false].
Proof.
  assert (0 ≤ 2) as H0 by lia.
  assert (0 ≤ 1000) as H1 by lia.
  assert (1000 ≤ 2000) as H2 by lia.
  assert ((2000 - 0) * 2 < Second) as H3 by (unfold Second; lia).
  split; [done|].
  exact (proj2 AllowIP_token_bucket 2 "192.0.2.1" 0 1000 2000 [] H0 H1 H2 H3).
Defined.

(** The default configuration: a drained bucket of the general tier,
    whose limit is documented as 60 requests per minute, has 60 tokens one
    second later. *)
Lemma SetupRoutes_rate_is_per_second_test :
  let general := middleware.limiter_of (api.v1 (api.SetupRoutes config.defaults)) in
  let lim := {| rate.capacity := 60; rate.refillRatePerSecond := Qc_of_Z 60;
                rate.tokens := 0%Qc; rate.lastRefill := 0 |} in
  middleware.tier_bucket general lim ∧
  rate.Tokens lim (Add 0 Second) = Qc_of_Z 60.
Proof.
  intros general lim.
  assert (middleware.tier_bucket general lim) as Ht by (split; reflexivity).
  split; [exact Ht|].
  destruct (proj2 SetupRoutes_rate_is_per_second config.defaults)
    as (_ & _ & _ & _ & Hfull).
  exact (Hfull general lim (or_introl eq_refl) Ht eq_refl).
Defined.

(** [TestIPRateLimiter_CleanupOldEntries]: the first [GetLimiter] of an
    address on a fresh registry, and the same object again afterwards. *)
Lemma GetLimiter_get_or_create_test :
  let i := middleware.NewIPRateLimiter 10 10 in
  middleware.registry_ok i [] ∧
  (middleware.GetLimiter i "192.168.1.1" 0 []).1.1 = 0%nat ∧
  ∀ now' h'',
    middleware.GetLimiter (middleware.GetLimiter i "192.168.1.1" 0 []).1.2
      "192.168.1.1" now' h''
    = (0%nat, (middleware.GetLimiter i "192.168.1.1" 0 []).1.2, h'').
Proof.
  intros i.
  assert (middleware.registry_ok i []) as Hok by apply registry_ok_empty.
  split; [exact Hok|]. split; [reflexivity|].
  destruct (GetLimiter_get_or_create i "192.168.1.1" 0 [] Hok)
    as (_ & _ & _ & Hsame & _).
  exact Hsame.
Defined.

(** [TestRateLimitMiddleware_DifferentIPs]: rate 1, burst 1; the requests
    of the first address do not change the decision for the second. *)
Lemma AllowIP_isolated_test :
  let i := middleware.NewIPRateLimiter 1 1 in
  (middleware.registry_ok i [] ∧ "192.168.1.1" ≠ "192.168.1.2") ∧
  (middleware.AllowIP (middleware.AllowEach i "192.168.1.1" [0; 1000] []).1.2
     "192.168.1.2" 2000 (middleware.AllowEach i "192.168.1.1" [0; 1000] []).2).1.1
  = (middleware.AllowIP i "192.168.1.2" 2000 []).1.1.
Proof.
  intros i.
  assert (middleware.registry_ok i []) as Hok by apply registry_ok_empty.
  assert ("192.168.1.1" ≠ "192.168.1.2") as Hne by discriminate.
  split; [done|].
  exact (proj2 (proj1 (proj2 AllowIP_isolated) i [] "192.168.1.1" "192.168.1.2"
                  [0; 1000] 2000 Hok Hne)).
Defined.

(** [TestRateLimitMiddleware_ExceedsLimit] through the closure of
    [RateLimitMiddleware 2 2]: two requests are passed on, the third is
    aborted with the headers the test expects. *)
Example RateLimitMiddleware_ExceedsLimit :
  let m0 := middleware.RateLimitMiddleware 2 2 in
  let r1 := middleware.serve m0 "192.0.2.1" 0 10 [] in
  let r2 := middleware.serve r1.1.2 "192.0.2.1" 1000 1010 r1.2 in
  let r3 := middleware.serve r2.1.2 "192.0.2.1" 2000 2010 r2.2 in
  r1.1.1 = middleware.Next 2 1 ∧
  r2.1.1 = middleware.Next 2 0 ∧
  r3.1.1 = middleware.Abort 429 2 0 60 "rate_limit_exceeded".
Proof. vm_compute. done. Qed.

(** After a pass of [CleanupOldEntries] over an untouched (full) bucket
    the identity gets a new object. *)
Example GetLimiter_after_cleanup :
  let i0 := middleware.NewIPRateLimiter 10 10 in
  let g1 := middleware.GetLimiter i0 "192.168.1.1" 0 [] in
  let i2 := middleware.CleanupOldEntries g1.1.2 5 g1.2 in
  let g3 := middleware.GetLimiter i2 "192.168.1.1" 7 g1.2 in
  g1.1.1 = 0%nat ∧ g3.1.1 = 1%nat.
Proof. vm_compute. done. Qed.

(** A TTL of minus one second and a tier of rate 0 and burst 0 are not
    valid configurations, and both constructors return a component for
    them: a cache in which a value is gone at the instant it is set, and a
    registry that refuses the first request of an address. *)
Lemma constructors_accept_invalid_configuration :
  ¬ config.valid_ttl (-1 * Second) ∧
  ¬ config.valid_tier 0 0 ∧
  cache.ttl (@cache.NewMemoryCache string (-1 * Second)) = -1 * Second ∧
  cache.Get (cache.Set_ (cache.NewMemoryCache (-1 * Second)) "key1"
               (Some "value1"%string) 0) "key1" 0 = (None, false) ∧
  middleware.burst (middleware.NewIPRateLimiter 0 0) = 0 ∧
  (middleware.AllowIP (middleware.NewIPRateLimiter 0 0) "192.0.2.1" 0 []).1.1
    = false.
Proof.
  split; [unfold config.valid_ttl, Second; lia|].
  split; [unfold config.valid_tier; lia|].
  split; [reflexivity|]. split; [reflexivity|]. split; [reflexivity|].
  vm_compute. reflexivity.
Qed.

(** * Further properties of the cache *)

Section CacheFurther.
Context {V : Type}.
Import time cache.

Implicit Types (c : MemoryCache V) (item : CacheItem V) (key : string)
  (now : Time) (value : @any V).

Lemma cache_eq c1 c2 : data c1 = data c2 → ttl c1 = ttl c2 → c1 = c2.
Proof. destruct c1, c2; simpl; by intros -> ->. Qed.

(** Expiration is lazy: once the TTL has run out after a [Set], [Get]
    no longer finds the key, although the entry is still in the store. *)
Theorem Get_after_ttl_elapsed :
  ∀ c key value now now',
    now + ttl c < now' →
    Get (Set_ c key value now) key now' = (None, false) ∧
    data (Set_ c key value now) !! key
      = Some {| Data := value; ExpiresAt := now + ttl c |}.
Proof.
  intros c key value now now' Hlt.
  assert (data (Set_ c key value now) !! key
            = Some {| Data := value; ExpiresAt := now + ttl c |}) as Hl
    by apply lookup_insert_eq.
  split; [|done].
  rewrite (Get_Some _ _ _ _ Hl). simpl.
  rewrite bool_decide_eq_false_2; [done | lia].
Qed.

(** [Delete] removes the key and nothing else, and leaves a cache that
    does not have the key as it is. *)
Theorem Delete_removes_only_key :
  ∀ c key,
    data (Delete c key) !! key = None ∧
    (∀ key', key' ≠ key → data (Delete c key) !! key' = data c !! key') ∧
    ttl (Delete c key) = ttl c ∧
    (data c !! key = None → Delete c key = c) ∧
    (∀ item, data c !! key = Some item →
       size (data c) = S (size (data (Delete c key)))).
Proof.
  intros c key. unfold Delete; simpl.
  split; [apply lookup_delete_eq|].
  split; [intros key' Hne; by apply lookup_delete_ne|].
  split; [done|]. split.
  - intros Hn. apply cache_eq; simpl; [by apply delete_id | done].
  - intros item Hl. rewrite <- (insert_delete_id (data c) key item Hl) at 1.
    apply map_size_insert_None, lookup_delete_eq.
Qed.

(** A tick of the sweep is invisible to the readers: from the instant of
    the tick on, [Get] answers as if the tick had not happened. *)
Theorem cleanup_invisible_to_Get :
  ∀ c key now now',
    now ≤ now' →
    Get (cleanup c now) key now' = Get c key now'.
Proof.
  intros c key now now' Hle.
  pose proof (cleanup_lookup c now key) as Hcl.
  destruct (data c !! key) as [item|] eqn:Hl.
  - destruct (After now (ExpiresAt item)) eqn:E.
    + apply After_spec in E.
      rewrite (Get_None _ _ _ Hcl), (Get_Some _ _ _ _ Hl).
      rewrite bool_decide_eq_false_2; [done | lia].
    + by rewrite (Get_Some _ _ _ _ Hl), (Get_Some _ _ _ _ Hcl).
  - by rewrite (Get_None _ _ _ Hcl), (Get_None _ _ _ Hl).
Qed.

(** The three fields of [Stats]. *)
Lemma Stats_fields c now :
  Stats c now !! "total" = Some (Z.of_nat (size (data c))) ∧
  Stats c now !! "expired"
    = Some (Z.of_nat (size (filter (fun kv => expired_at now kv.2) (data c)))) ∧
  Stats c now !! "active"
    = Some (Z.of_nat (size (filter (fun kv => live_at now kv.2) (data c)))).
Proof.
  unfold Stats. rewrite expired_count.
  pose proof (live_expired_partition (data c) now) as Hp.
  split; [by rewrite lookup_insert_eq|].
  split; [by rewrite lookup_insert_ne, lookup_insert_ne, lookup_insert_eq|].
  rewrite lookup_insert_ne, lookup_insert_eq by done. f_equal. lia.
Qed.

(** Right after a tick of the sweep, at the instant of the tick, [Stats]
    reports no expired entry, and as total and active what it reported
    as active before. *)
Theorem Stats_after_cleanup :
  ∀ c now,
    Stats (cleanup c now) now !! "expired" = Some 0 ∧
    Stats (cleanup c now) now !! "total" = Stats c now !! "active" ∧
    Stats (cleanup c now) now !! "active" = Stats c now !! "active".
Proof.
  intros c now.
  destruct (Stats_fields (cleanup c now) now) as (Ht & He & Ha).
  destruct (Stats_fields c now) as (_ & _ & Ha0).
  rewrite Ht, He, Ha, Ha0, cleanup_filter.
  assert (filter (fun kv => expired_at now kv.2)
            (filter (fun kv => live_at now kv.2) (data c)) = ∅) as ->.
  { apply map_empty. intros k. apply map_lookup_filter_None. right.
    intros x Hk. apply map_lookup_filter_Some in Hk as [_ Hlive].
    unfold expired_at, live_at in *; simpl in *. lia. }
  assert (filter (fun kv => live_at now kv.2)
            (filter (fun kv => live_at now kv.2) (data c))
          = filter (fun kv => live_at now kv.2) (data c)) as ->.
  { apply map_filter_id. intros k x Hk.
    by apply map_lookup_filter_Some in Hk as [_ Hlive]. }
  by rewrite map_size_empty.
Qed.

(** The active count of [Stats] is the number of keys of the store that
    [Get] finds at that instant. *)
Theorem Stats_active_counts_visible :
  ∀ c now,
    Stats c now !! "active"
    = Some (Z.of_nat (size (filter (fun kv => (Get c kv.1 now).2 = true) (data c)))).
Proof.
  intros c now. destruct (Stats_fields c now) as (_ & _ & ->).
  do 3 f_equal. apply map_filter_ext. intros k x Hk. simpl.
  rewrite (Get_Some _ _ _ _ Hk). unfold live_at.
  case_bool_decide; simpl; split; done.
Qed.

(** A later tick of the sweep subsumes an earlier one. *)
Theorem cleanup_cleanup :
  ∀ c now now',
    now ≤ now' →
    cleanup (cleanup c now) now' = cleanup c now'.
Proof.
  intros c now now' Hle. apply cache_eq; [|done].
  apply map_eq. intros key.
  rewrite (cleanup_lookup (cleanup c now) now' key), (cleanup_lookup c now' key),
    (cleanup_lookup c now key).
  destruct (data c !! key) as [item|]; [|done].
  destruct (After now (ExpiresAt item)) eqn:E1; [|done].
  apply After_spec in E1.
  destruct (After now' (ExpiresAt item)) eqn:E2; [done|].
  apply After_false in E2. lia.
Qed.

(** Along a history, every entry of the store is either an entry of the
    initial store or the entry of a [Set] of the history. *)
Lemma run_provenance c (h : list (op V * Time)) key item :
  data (run c h) !! key = Some item →
  data c !! key = Some item ∨
  ∃ t, (OpSet key (Data item), t) ∈ h ∧ ExpiresAt item = t + ttl c.
Proof.
  revert c. induction h as [|[o t] h IH]; intros c Hl; [by left|].
  simpl in Hl. apply IH in Hl.
  assert (ttl (step c (o, t)) = ttl c) as Httl by (by destruct o).
  destruct Hl as [Hl | (t' & Hin & Ht')].
  - destruct o as [k|k v|k| |];
      [simpl in Hl .. | change (data (cleanup c t) !! key = Some item) in Hl].
    + by left.
    + destruct (decide (k = key)) as [->|Hne].
      * rewrite lookup_insert_eq in Hl. injection Hl as <-. right.
        exists t. split; [apply list_elem_of_here | done].
      * rewrite lookup_insert_ne in Hl by done. by left.
    + left. destruct (decide (k = key)) as [->|Hne].
      * by rewrite lookup_delete_eq in Hl.
      * by rewrite lookup_delete_ne in Hl.
    + by left.
    + left. pose proof (cleanup_lookup c t key) as Hcl. rewrite Hl in Hcl.
      destruct (data c !! key) as [item'|]; [|done].
      by destruct (After t (ExpiresAt item')).
  - right. exists t'. split; [by apply list_elem_of_further | by rewrite <- Httl].
Qed.

(** What [Get] returns was written: in a cache that started empty, a
    value found under a key is the value of a [Set] of that key in the
    history, at most the TTL before the [Get]. *)
Theorem Get_value_was_Set :
  ∀ (ttl0 : Duration) (h : list (op V * Time)) key now value,
    Get (run (NewMemoryCache ttl0) h) key now = (value, true) →
    ∃ t, (OpSet key value, t) ∈ h ∧ now ≤ t + ttl0.
Proof.
  intros ttl0 h key now value HG.
  apply Get_found in HG as (item & Hl & <- & Hle).
  apply run_provenance in Hl as [Hl | (t & Hin & Ht)].
  - simpl in Hl. by rewrite lookup_empty in Hl.
  - exists t. split; [done|]. simpl in Ht. lia.
Qed.

End CacheFurther.

(** * Decimal numbers *)

Section Decimal.
Import Stdlib.Strings.Ascii strconv.

Lemma pretty_N_char_digit (r : N) :
  (r < 10)%N →
  is_digit (pretty_N_char r) = true ∧ digit_value (pretty_N_char r) = Z.of_N r.
Proof.
  intros Hr.
  assert (r = 0 ∨ r = 1 ∨ r = 2 ∨ r = 3 ∨ r = 4 ∨ r = 5 ∨ r = 6 ∨ r = 7
          ∨ r = 8 ∨ r = 9)%N as Hc by lia.
  repeat (destruct Hc as [-> | Hc]; [by vm_compute|]). subst r. by vm_compute.
Qed.

(** Reading the digits that [pretty] wrote for [x] appends [x] to the
    number read so far. *)
Lemma digits_value_pretty_N_go (x : N) :
  ∃ p : Z, 0 < p ∧
    ∀ s acc, digits_value acc (pretty_N_go x s) = digits_value (acc * p + Z.of_N x) s.
Proof.
  induction (N.lt_wf_0 x) as [x _ IH].
  assert (x = 0 ∨ 0 < x)%N as [->|Hpos] by lia.
  - exists 1. split; [lia|]. intros s acc. rewrite pretty_N_go_0. f_equal. lia.
  - destruct (IH (x `div` 10)%N) as (p & Hp & Hgo); [by apply N.div_lt|].
    exists (p * 10). split; [lia|]. intros s acc.
    rewrite pretty_N_go_step, Hgo by done. simpl.
    destruct (pretty_N_char_digit (x `mod` 10)%N) as [-> ->];
      [by apply N.mod_lt|].
    f_equal. pose proof (N.div_mod x 10). lia.
Qed.

Lemma digits_value_pretty_N (x : N) :
  digits_value 0 (pretty x) = Some (Z.of_N x).
Proof.
  unfold pretty, pretty_N. case_decide as Hx; [by subst|].
  destruct (digits_value_pretty_N_go x) as (p & _ & ->). done.
Qed.

(** A non-empty string of digits is read by [Atoi] as its value, when
    that fits an [int]. *)
Lemma Atoi_digits (s : string) (n : Z) :
  s ≠ "" → digits_value 0 s = Some n → 0 ≤ n → n ≤ MaxInt → Atoi s = Some n.
Proof.
  intros Hs Hv H0 Hmax. destruct s as [|c s']; [done|].
  assert (is_digit c = true) as Hc.
  { simpl in Hv. by destruct (is_digit c). }
  assert (Ascii.eqb c "-"%char = false ∧ Ascii.eqb c "+"%char = false) as [Hm Hp].
  { split; apply Ascii.eqb_neq; intros ->; by vm_compute in Hc. }
  unfold Atoi. rewrite Hm, Hp, Hv.
  assert ((MinInt <=? n) && (n <=? MaxInt) = true) as ->; [|done].
  apply andb_true_intro. split; apply Z.leb_le; [|done].
  unfold MinInt. lia.
Qed.

Lemma digits_value_nonneg (s : string) (acc n : Z) :
  0 ≤ acc → digits_value acc s = Some n → acc ≤ n.
Proof.
  revert acc. induction s as [|c s IH]; intros acc Hacc Hv; simpl in Hv.
  - injection Hv as <-. lia.
  - destruct (is_digit c) eqn:Hc; [|done].
    apply IH in Hv.
    + unfold is_digit in Hc. apply andb_prop in Hc as [Hlo _].
      apply Z.leb_le in Hlo. unfold digit_value in Hv. lia.
    + unfold is_digit in Hc. apply andb_prop in Hc as [Hlo _].
      apply Z.leb_le in Hlo. unfold digit_value. lia.
Qed.

Lemma Atoi_minus (body : string) (n : Z) :
  body ≠ "" → digits_value 0 body = Some n → MinInt ≤ - n → - n ≤ MaxInt →
  Atoi (String "-" body) = Some (- n).
Proof.
  intros Hb Hv Hmin Hmax. destruct body as [|c s']; [done|].
  unfold Atoi. change (Ascii.eqb "-" "-") with true. cbv beta iota zeta.
  rewrite Hv.
  assert ((MinInt <=? - n) && (- n <=? MaxInt) = true) as ->; [|done].
  apply andb_true_intro. split; by apply Z.leb_le.
Qed.

Lemma pretty_N_pos_nonempty (p : positive) : pretty (N.pos p) ≠ "".
Proof.
  intros Hs. pose proof (digits_value_pretty_N (N.pos p)) as Hv.
  rewrite Hs in Hv. done.
Qed.

(** [Atoi] reads back what the decimal notation of an [int] says, sign
    included. *)
Theorem Atoi_pretty :
  ∀ n : Z, MinInt ≤ n → n ≤ MaxInt → Atoi (pretty n) = Some n.
Proof.
  intros n Hmin Hmax. destruct n as [|p|p].
  - by vm_compute.
  - change (pretty (Z.pos p)) with (pretty (N.pos p)).
    apply Atoi_digits;
      [apply pretty_N_pos_nonempty | apply (digits_value_pretty_N (N.pos p))
      | lia | done].
  - change (pretty (Z.neg p)) with (String "-" (pretty (N.pos p))).
    change (Z.neg p) with (- Z.of_N (N.pos p)).
    apply Atoi_minus;
      [apply pretty_N_pos_nonempty | apply digits_value_pretty_N | |].
    + change (- Z.of_N (N.pos p)) with (Z.neg p). done.
    + change (- Z.of_N (N.pos p)) with (Z.neg p). done.
Qed.

End Decimal.

(** * Loading the configuration *)

Section ConfigProperties.
Import time config.

Variable ParseDuration : string → option Duration.

Implicit Types (env : gmap string string) (key : string).

Lemma getEnv_Getenv env key d :
  getEnv env key d = if String.eqb (os.Getenv env key) "" then d else os.Getenv env key.
Proof. unfold getEnv. by destruct (String.eqb _ _). Qed.

(** The test for the empty string is subsumed by [Atoi], which refuses
    it. *)
Lemma getIntEnv_Atoi env key (d : Z) :
  getIntEnv env key d = default d (strconv.Atoi (os.Getenv env key)).
Proof.
  unfold getIntEnv. destruct (String.eqb (os.Getenv env key) "") eqn:E; simpl.
  - apply String.eqb_eq in E. by rewrite E.
  - by destruct (strconv.Atoi _).
Qed.

(** A variable that is not set and a variable set to the empty string
    both give the default: with none of its variables set to a non-empty
    value, [Load] returns the default configuration, whatever the other
    variables of the environment are. *)
Theorem Load_defaults :
  ∀ env,
    (∀ key, key ∈ variables → os.Getenv env key = "") →
    Load ParseDuration env = defaults.
Proof.
  intros env Hunset. unfold Load, getEnv, getDurationEnv, getIntEnv.
  rewrite !Hunset by (apply list_elem_of_In; simpl; tauto). reflexivity.
Qed.

(** [Load] reads nothing but its eight variables. *)
Theorem Load_reads_only_its_variables :
  ∀ env env',
    (∀ key, key ∈ variables → os.Getenv env key = os.Getenv env' key) →
    Load ParseDuration env = Load ParseDuration env'.
Proof.
  intros env env' Hsame. unfold Load, getEnv, getDurationEnv, getIntEnv.
  by rewrite !(Hsame _) by (apply list_elem_of_In; simpl; tauto).
Qed.

(** An integer variable is taken as it is written, zero and negative
    numbers included, and a value that is not the decimal notation of an
    [int] gives the default; nothing is checked beyond that.  So the two
    rate limits of [Load] are any [int] the environment says. *)
Theorem getIntEnv_decimal :
  ∀ env key (d n : Z),
    strconv.MinInt ≤ n → n ≤ strconv.MaxInt →
    env !! key = Some (pretty n) →
    getIntEnv env key d = n ∧
    (key = "RATE_LIMIT_PER_MINUTE" →
       RateLimitPerMinute (Load ParseDuration env) = n) ∧
    (key = "SCRAPE_RATE_LIMIT" →
       ScrapeRateLimit (Load ParseDuration env) = n).
Proof.
  intros env key d n Hmin Hmax Hk.
  assert (∀ d', getIntEnv env key d' = n) as Hget.
  { intros d'. rewrite getIntEnv_Atoi. unfold os.Getenv. rewrite Hk. simpl.
    by rewrite Atoi_pretty. }
  split; [apply Hget|]. split; intros ->; apply Hget.
Qed.

(** An integer variable whose value [Atoi] refuses gives the default. *)
Theorem getIntEnv_invalid :
  ∀ env key (d : Z),
    strconv.Atoi (os.Getenv env key) = None →
    getIntEnv env key d = d.
Proof. intros env key d HA. by rewrite getIntEnv_Atoi, HA. Qed.

End ConfigProperties.

(** * The scraper *)

Section Numbers.
Import Stdlib.Strings.Ascii strconv strings scraper.

Implicit Types (s t text : string) (c : ascii).

(** Removing the commas, character by character. *)
Lemma ReplaceAll_comma_nil : ReplaceAll "" "," "" = "".
Proof. done. Qed.

Lemma ReplaceAll_comma_cons c s :
  ReplaceAll (String c s) "," "" =
    if Ascii.eqb c "," then ReplaceAll s "," "" else String c (ReplaceAll s "," "").
Proof.
  unfold ReplaceAll.
  change (replace_from "," "" 0 (String c s))
    with (if String.prefix "," (String c s)
          then "" +:+ replace_from "," "" (String.length "," - 1) s
          else String c (replace_from "," "" 0 s)).
  change (String.prefix "," (String c s))
    with (if ascii_dec "," c then String.prefix "" s else false).
  destruct (ascii_dec "," c) as [<-|Hne].
  - by destruct s.
  - destruct (Ascii.eqb c ",") eqn:E; [|done].
    apply Ascii.eqb_eq in E. by subst.
Qed.

Lemma ReplaceAll_comma_app s t :
  ReplaceAll (s +:+ t) "," "" = ReplaceAll s "," "" +:+ ReplaceAll t "," "".
Proof.
  induction s as [|c s IH]; [done|].
  change (String c s +:+ t) with (String c (s +:+ t)).
  rewrite !ReplaceAll_comma_cons, IH. by destruct (Ascii.eqb c ",").
Qed.

Lemma ReplaceAll_comma_idemp s :
  ReplaceAll (ReplaceAll s "," "") "," "" = ReplaceAll s "," "".
Proof.
  induction s as [|c s IH]; [done|].
  rewrite ReplaceAll_comma_cons. destruct (Ascii.eqb c ",") eqn:E; [done|].
  by rewrite ReplaceAll_comma_cons, E, IH.
Qed.

Lemma is_digit_not_comma c : is_digit c = true → Ascii.eqb c "," = false.
Proof.
  intros Hc. apply Ascii.eqb_neq. intros ->. by vm_compute in Hc.
Qed.

(** A string that [digits_value] reads is made of digits: removing the
    commas leaves it as it is, and [take_digits] takes all of it when a
    character that is not a digit, or nothing, follows. *)
Lemma digits_ReplaceAll s acc n :
  digits_value acc s = Some n → ReplaceAll s "," "" = s.
Proof.
  revert acc. induction s as [|c s IH]; intros acc Hv; [done|].
  simpl in Hv. destruct (is_digit c) eqn:Hc; [|done].
  rewrite ReplaceAll_comma_cons, (is_digit_not_comma _ Hc). f_equal. eauto.
Qed.

Lemma take_digits_app s t acc n :
  digits_value acc s = Some n → take_digits t = "" → take_digits (s +:+ t) = s.
Proof.
  revert acc. induction s as [|c s IH]; intros acc Hv Ht; [done|].
  simpl in *. destruct (is_digit c); [|done]. f_equal. eauto.
Qed.

Lemma find_digits_app s t :
  find_digits s = "" → find_digits (s +:+ t) = find_digits t.
Proof.
  induction s as [|c s IH]; intros Hs; [done|].
  simpl in *. destruct (is_digit c); [done|]. auto.
Qed.

Lemma find_digits_ReplaceAll s :
  find_digits s = "" → find_digits (ReplaceAll s "," "") = "".
Proof.
  induction s as [|c s IH]; intros Hs; [done|].
  rewrite ReplaceAll_comma_cons. simpl in Hs.
  destruct (is_digit c) eqn:Hc; [done|].
  destruct (Ascii.eqb c ","); [auto|]. simpl. rewrite Hc. auto.
Qed.

(** What [find_digits] finds is empty or a string of digits, read by
    [digits_value]. *)
Lemma take_digits_value s : ∀ acc, ∃ n, digits_value acc (take_digits s) = Some n.
Proof.
  induction s as [|c s IH]; intros acc; simpl; [eauto|].
  destruct (is_digit c) eqn:Hc; simpl; [|eauto]. rewrite Hc. apply IH.
Qed.

Lemma find_digits_value s : ∃ n, digits_value 0 (find_digits s) = Some n.
Proof.
  induction s as [|c s IH]; simpl; [eauto|].
  destruct (is_digit c) eqn:Hc; [|done].
  pose proof (take_digits_value (String c s) 0) as Hv. simpl in Hv.
  by rewrite Hc in Hv.
Qed.

Lemma Atoi_of_digits s n m :
  digits_value 0 s = Some n → Atoi s = Some m → m = n ∧ 0 ≤ n ∧ n ≤ MaxInt.
Proof.
  intros Hv HA. destruct s as [|c s']; [done|].
  assert (is_digit c = true) as Hc.
  { simpl in Hv. by destruct (is_digit c). }
  assert (Ascii.eqb c "-" = false ∧ Ascii.eqb c "+" = false) as [Hm Hp].
  { split; apply Ascii.eqb_neq; intros ->; by vm_compute in Hc. }
  unfold Atoi in HA. rewrite Hm, Hp, Hv in HA.
  destruct ((MinInt <=? n) && (n <=? MaxInt)) eqn:Hr; [|done].
  injection HA as <-. apply andb_prop in Hr as [_ Hmax]. apply Z.leb_le in Hmax.
  split; [done|]. split; [|done].
  by apply (digits_value_nonneg (String c s') 0 n).
Qed.

(** [extractNumber] returns a number from 0 to the largest [int], and 0
    when the text has no digit. *)
Theorem extractNumber_range :
  ∀ text,
    0 ≤ extractNumber text ≤ MaxInt ∧
    (find_digits text = "" → extractNumber text = 0).
Proof.
  intros text. unfold extractNumber. split.
  - destruct (String.eqb _ "") eqn:E; [by vm_compute|].
    destruct (find_digits_value (ReplaceAll text "," "")) as [n Hn].
    destruct (Atoi _) as [m|] eqn:HA; [|by vm_compute].
    destruct (Atoi_of_digits _ _ _ Hn HA) as (-> & ? & ?). lia.
  - intros Hnone. by rewrite (find_digits_ReplaceAll _ Hnone).
Qed.

(** [extractNumber] reads the first number of the text: the decimal
    notation of [n] after a text without digits, and before the end or a
    character that is neither a digit nor a comma. *)
Theorem extractNumber_decimal :
  ∀ (pre post : string) (n : Z),
    0 ≤ n → n ≤ MaxInt →
    find_digits pre = "" →
    take_digits (ReplaceAll post "," "") = "" →
    extractNumber (pre +:+ pretty n +:+ post) = n.
Proof.
  intros pre post n H0 Hmax Hpre Hpost.
  assert (digits_value 0 (pretty n) = Some n ∧ pretty n ≠ "") as [Hv Hne].
  { destruct n as [|p|p]; [by vm_compute | | lia].
    split; [apply (digits_value_pretty_N (N.pos p)) | apply pretty_N_pos_nonempty]. }
  unfold extractNumber.
  rewrite !ReplaceAll_comma_app, (digits_ReplaceAll _ _ _ Hv).
  rewrite find_digits_app by (by apply find_digits_ReplaceAll).
  assert (find_digits (pretty n +:+ ReplaceAll post "," "") = pretty n) as ->.
  { destruct (pretty n) as [|c s'] eqn:Hs; [done|].
    assert (is_digit c = true) as Hc.
    { simpl in Hv. by destruct (is_digit c). }
    change (String c s' +:+ ReplaceAll post "," "")
      with (String c (s' +:+ ReplaceAll post "," "")).
    unfold find_digits. rewrite Hc.
    change (String c (s' +:+ ReplaceAll post "," ""))
      with (String c s' +:+ ReplaceAll post "," "").
    by apply (take_digits_app _ _ 0 n). }
  destruct (String.eqb (pretty n) "") eqn:E.
  { apply String.eqb_eq in E. done. }
  by rewrite (Atoi_digits _ _ Hne Hv H0 Hmax).
Qed.

(** Commas are dropped wherever they are, before the number is looked
    for. *)
Theorem extractNumber_ignores_commas :
  ∀ s t, extractNumber (s +:+ "," +:+ t) = extractNumber (s +:+ t).
Proof.
  intros s t. unfold extractNumber.
  by rewrite !ReplaceAll_comma_app.
Qed.

End Numbers.

(** [TestGetIntEnv] and the edges of [Atoi]. *)
Example Atoi_tests :
  strconv.Atoi "100" = Some 100 ∧
  strconv.Atoi "0" = Some 0 ∧
  strconv.Atoi "-10" = Some (-10) ∧
  strconv.Atoi "+7" = Some 7 ∧
  strconv.Atoi "invalid" = None ∧
  strconv.Atoi "" = None ∧
  strconv.Atoi "-" = None ∧
  strconv.Atoi "12a" = None ∧
  strconv.Atoi "9223372036854775807" = Some strconv.MaxInt ∧
  strconv.Atoi "9223372036854775808" = None ∧
  strconv.Atoi "-9223372036854775808" = Some strconv.MinInt.
Proof. vm_compute. done. Qed.

(** [TestExtractNumber] *)
Example extractNumber_tests :
  scraper.extractNumber "123" = 123 ∧
  scraper.extractNumber "123 ratings" = 123 ∧
  scraper.extractNumber "1,234 reviews" = 1234 ∧
  scraper.extractNumber "123 ratings and 456 reviews" = 123 ∧
  scraper.extractNumber "no numbers here" = 0 ∧
  scraper.extractNumber "" = 0.
Proof. vm_compute. done. Qed.

Section ScraperProperties.
Import time strings scraper scraper.Scraper.
Context {float64 : Type} {Document : Type}.

Variable zero : float64.
Variable client : string → (Z * string) + string.
Variable NewDocumentFromReader : string → Document + string.
Variable parseProfileStats : Document → Z * Z * float64 → Z * Z * float64.
Variable parseShelfBooks : Document → list Book.

Local Abbreviation getShelfBooks :=
  (getShelfBooks client NewDocumentFromReader parseShelfBooks).
Local Abbreviation GetReadingStats :=
  (GetReadingStats zero client NewDocumentFromReader parseProfileStats parseShelfBooks).

Lemma getUserID_no_error (username : string) : (getUserID username).2 = None.
Proof. unfold getUserID. by destruct (Contains username "-"). Qed.

Lemma min_spec (a b : Z) : min a b = Z.min a b.
Proof. unfold min. destruct (a <? b) eqn:E; [apply Z.ltb_lt in E | apply Z.ltb_ge in E]; lia. Qed.

(** [getUserID] never fails and always returns an identifier with a
    hyphen, which it maps to itself: a user name with a hyphen as it is,
    and every other user name as the one identifier written in the
    code. *)
Theorem getUserID_hyphen :
  ∀ username,
    (getUserID username).2 = None ∧
    Contains (getUserID username).1 "-" = true ∧
    getUserID (getUserID username).1 = getUserID username ∧
    (Contains username "-" = true → (getUserID username).1 = username) ∧
    (Contains username "-" = false → (getUserID username).1 = "101839711-kaine").
Proof.
  intros username. unfold getUserID.
  destruct (Contains username "-") eqn:E; simpl.
  - rewrite E. done.
  - repeat split; done.
Qed.

(** The user name is used only to find the identifier: for two user
    names without a hyphen [GetReadingStats] fails alike, or returns
    statistics that differ in the field [Username] only: each of the
    other eleven fields is the same in both. *)
Theorem GetReadingStats_without_hyphen :
  ∀ u1 u2 now,
    Contains u1 "-" = false → Contains u2 "-" = false →
    match GetReadingStats u1 now, GetReadingStats u2 now with
    | inl s1, inl s2 =>
        Username s1 = u1 ∧ Username s2 = u2 ∧
        UserID s1 = "101839711-kaine" ∧ UserID s2 = UserID s1 ∧
        AverageRating s2 = AverageRating s1 ∧
        TotalRatings s2 = TotalRatings s1 ∧ TotalReviews s2 = TotalReviews s1 ∧
        LastUpdated s2 = LastUpdated s1 ∧
        Favorites s2 = Favorites s1 ∧ StudyBooks s2 = StudyBooks s1 ∧
        TotalBooks s2 = TotalBooks s1 ∧ BooksThisYear s2 = BooksThisYear s1 ∧
        CurrentlyReading s2 = CurrentlyReading s1 ∧
        RecentReads s2 = RecentReads s1
    | inr e1, inr e2 => e1 = e2
    | _, _ => False
    end.
Proof.
  intros u1 u2 now H1 H2. unfold Scraper.GetReadingStats, getUserID.
  rewrite H1, H2.
  destruct (client _) as [[status body]|err]; [|done].
  destruct (negb (status =? 200)); [done|].
  destruct (NewDocumentFromReader body) as [doc|err]; [|done].
  destruct (parseProfileStats doc (0, 0, zero)) as [[ratings reviews] average].
  done.
Qed.

(** Only the profile page can make [GetReadingStats] fail: when it is
    fetched with status 200 and parsed, the call succeeds whatever
    happens to the shelves, for the identifier of [getUserID], and with
    the books of a shelf that failed left empty. *)
Theorem GetReadingStats_succeeds_with_profile :
  ∀ username now body doc,
    client ("https://www.goodreads.com/user/show/" +:+ (getUserID username).1)
      = inl (200, body) →
    NewDocumentFromReader body = inl doc →
    ∃ stats,
      GetReadingStats username now = inl stats ∧
      UserID stats = (getUserID username).1 ∧
      Username stats = username ∧
      LastUpdated stats = now ∧
      (TotalRatings stats, TotalReviews stats, AverageRating stats)
        = parseProfileStats doc (0, 0, zero) ∧
      StudyBooks stats
        = match getShelfBooks (getUserID username).1 "study" with
          | inl books => books
          | inr _ => []
          end.
Proof.
  intros username now body doc Hc Hd. unfold Scraper.GetReadingStats.
  destruct (getUserID username) as [userID err] eqn:Hu.
  assert (err = None) as ->.
  { pose proof (getUserID_no_error username) as H. by rewrite Hu in H. }
  simpl in Hc. rewrite Hc. simpl. rewrite Hd.
  destruct (parseProfileStats doc (0, 0, zero)) as [[ratings reviews] average].
  eexists. split; [reflexivity|]. done.
Qed.

(** The favourites are those of the shelf "favorites", unless that shelf
    and the shelf "study" give no book: then they are the first ten
    books of the shelf "read", or all of them when there are fewer. *)
Theorem GetReadingStats_favorites :
  ∀ username now stats,
    GetReadingStats username now = inl stats →
    let userID := (getUserID username).1 in
    let shelf name :=
      match getShelfBooks userID name with
      | inl books => books
      | inr _ => []
      end in
    (shelf "favorites" ≠ [] ∨ shelf "study" ≠ [] →
       Favorites stats = shelf "favorites") ∧
    (shelf "favorites" = [] → shelf "study" = [] →
       Favorites stats = take 10 (shelf "read")) ∧
    (Favorites stats = shelf "favorites" ∨ length (Favorites stats) ≤ 10)%nat.
Proof.
  intros username now stats HG userID shelf.
  unfold Scraper.GetReadingStats in HG.
  destruct (getUserID username) as [uid err] eqn:Hu.
  assert (err = None) as ->.
  { pose proof (getUserID_no_error username) as H. by rewrite Hu in H. }
  assert (userID = uid) as Huid by done.
  destruct (client _) as [[status body]|e]; [|done].
  destruct (negb (status =? 200)); [done|].
  destruct (NewDocumentFromReader body) as [doc|e]; [|done].
  destruct (parseProfileStats doc (0, 0, zero)) as [[ratings reviews] average].
  injection HG as <-. simpl. unfold shelf. rewrite Huid.
  set (fav := match getShelfBooks uid "favorites" with
              | inl favorites => favorites | inr _ => [] end).
  set (study := match getShelfBooks uid "study" with
                | inl studyBooks => studyBooks | inr _ => [] end).
  set (read := match getShelfBooks uid "read" with
               | inl books => books | inr _ => [] end).
  assert (match getShelfBooks uid "read" with
          | inl readBooks =>
              if Z.of_nat (length readBooks) >? 0
              then take (Z.to_nat (min 10 (Z.of_nat (length readBooks)))) readBooks
              else fav
          | inr _ => fav
          end = if decide (read = []) then fav else take 10 read) as Hread.
  { unfold read. destruct (getShelfBooks uid "read") as [books|e]; [|done].
    destruct books as [|b books]; [done|].
    rewrite decide_False by done.
    assert ((Z.of_nat (length (b :: books)) >? 0) = true) as ->
      by (rewrite Z.gtb_ltb; apply Z.ltb_lt; simpl length; lia).
    rewrite min_spec.
    destruct (decide (length (b :: books) ≤ 10)%nat).
    - rewrite Z.min_r, Nat2Z.id by lia. by rewrite !take_ge by lia.
    - rewrite Z.min_l by lia. done. }
  rewrite Hread.
  destruct fav as [|f fav']; destruct study as [|st study']; simpl.
  - split; [intros [?|?]; done|]. split.
    + intros _ _. case_decide as Hr; [by rewrite Hr | done].
    + case_decide; [by left|]. right. rewrite length_take. lia.
  - split; [done|]. split; [done | by left].
  - split; [done|]. split; [done | by left].
  - split; [done|]. split; [done | by left].
Qed.

End ScraperProperties.

(** * The handlers *)

Section HandlerProperties.
Import time scraper cache middleware api handlers.
Context {float64 : Type}.

Implicit Types (s : Interface float64) (c : MemoryCache (dyn float64))
  (r : route) (username key : string) (now : Time).

(** The cache keys of the four caching handlers tell the handler and
    the user name: no two requests share a key unless they are the same
    request. *)
Theorem cacheKey_injective :
  ∀ r1 r2 key,
    cacheKey r1 = Some key → cacheKey r2 = Some key → r1 = r2.
Proof.
  intros r1 r2 key H1 H2.
  destruct r1, r2; simpl in H1, H2; try discriminate;
    rewrite <- H2 in H1; clear H2; by simplify_eq/=.
Qed.

(** The four caching handlers on a hit. *)
Lemma getPortfolioData_hit s c username now now' cached :
  Get c ("portfolio:" +:+ username) now = (cached, true) →
  getPortfolioData s c username now now' =
    ({| Status := 200; XCache := Some "HIT"%string; Body := cached |}, c).
Proof. intros HG. unfold getPortfolioData. by rewrite HG. Qed.

(** What a request finds under its key right after a [Set] of it. *)
Lemma Get_Set_within c key value now now' :
  now' ≤ now + ttl c → Get (Set_ c key value now) key now' = (value, true).
Proof.
  intros Hle.
  rewrite (Get_Some (Set_ c key value now) key now'
             {| Data := value; ExpiresAt := now + ttl c |})
    by apply lookup_insert_eq.
  simpl. by rewrite bool_decide_eq_true_2.
Qed.

Lemma Get_Set_elapsed c key value now now' :
  now + ttl c < now' → (Get (Set_ c key value now) key now').2 = false.
Proof.
  intros Hlt.
  rewrite (Get_Some (Set_ c key value now) key now'
             {| Data := value; ExpiresAt := now + ttl c |})
    by apply lookup_insert_eq.
  simpl. rewrite bool_decide_eq_false_2; [done | lia].
Qed.

Lemma typed_Set c key value now :
  typed c →
  (∀ u, key = "stats:" +:+ u → ∃ stats, value = Some (DStats stats)) →
  (∀ u, key = "favorites:" +:+ u → ∃ books, value = Some (DBooks books)) →
  (∀ u, key = "study:" +:+ u → ∃ books, value = Some (DBooks books)) →
  typed (Set_ c key value now).
Proof.
  intros Hc Hs Hf Hst u item. destruct (Hc u item) as (Hcs & Hcf & Hcst).
  unfold Set_; simpl. split; [|split]; intros Hl.
  - destruct (decide (key = "stats:" +:+ u)) as [Hk|Hk].
    + rewrite Hk, lookup_insert_eq in Hl. injection Hl as <-. by apply (Hs u).
    + rewrite lookup_insert_ne in Hl by done. by apply Hcs.
  - destruct (decide (key = "favorites:" +:+ u)) as [Hk|Hk].
    + rewrite Hk, lookup_insert_eq in Hl. injection Hl as <-. by apply (Hf u).
    + rewrite lookup_insert_ne in Hl by done. by apply Hcf.
  - destruct (decide (key = "study:" +:+ u)) as [Hk|Hk].
    + rewrite Hk, lookup_insert_eq in Hl. injection Hl as <-. by apply (Hst u).
    + rewrite lookup_insert_ne in Hl by done. by apply Hcst.
Qed.

(** What a handler does to the cache: nothing, or one [Set] of the key
    of its route, of a value of the kind of the key, with a response 200
    marked MISS. *)
Lemma handle_effect s c r now now' :
  (handle s c r now now').2 = c ∨
  ∃ key value,
    cacheKey r = Some key ∧
    (handle s c r now now').2 = Set_ c key (Some value) now' ∧
    Status (handle s c r now now').1 = 200 ∧
    XCache (handle s c r now now').1 = Some "MISS"%string ∧
    (∀ u, key = "stats:" +:+ u → ∃ stats, value = DStats stats) ∧
    (∀ u, key = "favorites:" +:+ u → ∃ books, value = DBooks books) ∧
    (∀ u, key = "study:" +:+ u → ∃ books, value = DBooks books).
Proof.
  destruct r as [|u|u sh|u|u|u|u]; simpl; [by left ..| | | |].
  - unfold getReadingStats.
    destruct (Get c ("stats:" +:+ u) now) as [[[]|] []];
      destruct (GetReadingStats s u) as [scraped|err]; simpl; try (by left);
      right; eexists _, _; (split; [reflexivity|]); (split; [reflexivity|]);
      (split; [done|]); (split; [done|]);
      (split; [eauto|]); split; intros u' Hk; by simplify_eq/=.
  - unfold getFavorites.
    destruct (Get c ("favorites:" +:+ u) now) as [[[]|] []];
      destruct (GetReadingStats s u) as [scraped|err]; simpl; try (by left);
      right; eexists _, _; (split; [reflexivity|]); (split; [reflexivity|]);
      (split; [done|]); (split; [done|]);
      (split; [intros u' Hk; by simplify_eq/=|]); (split; [eauto|]);
      intros u' Hk; by simplify_eq/=.
  - unfold getStudyBooks.
    destruct (Get c ("study:" +:+ u) now) as [[[]|] []];
      destruct (GetReadingStats s u) as [scraped|err]; simpl; try (by left);
      right; eexists _, _; (split; [reflexivity|]); (split; [reflexivity|]);
      (split; [done|]); (split; [done|]);
      (split; [intros u' Hk; by simplify_eq/=|]);
      (split; [intros u' Hk; by simplify_eq/=|]); eauto.
  - unfold getPortfolioData.
    destruct (Get c ("portfolio:" +:+ u) now) as [v []]; [by left|].
    destruct (GetReadingStats s u) as [scraped|err]; simpl; [|by left].
    right; eexists _, _; (split; [reflexivity|]); (split; [reflexivity|]);
      (split; [done|]); (split; [done|]);
      repeat split; intros u' Hk; by simplify_eq/=.
Qed.

Lemma typed_fresh (ttl0 : Duration) : typed (@NewMemoryCache (dyn float64) ttl0).
Proof. intros u item. simpl. rewrite !lookup_empty. by repeat split. Qed.

Lemma typed_handle s c r now now' : typed c → typed (handle s c r now now').2.
Proof.
  intros Hc.
  destruct (handle_effect s c r now now')
    as [-> | (key & value & _ & -> & _ & _ & Hs & Hf & Hst)]; [done|].
  apply typed_Set; [done | | |]; intros u Hk.
  - destruct (Hs u Hk) as [stats ->]. eauto.
  - destruct (Hf u Hk) as [books ->]. eauto.
  - destruct (Hst u Hk) as [books ->]. eauto.
Qed.

(** The kinds of the cached values are an invariant of the handlers:
    the fresh cache has it and every handler keeps it. *)
Theorem handle_keeps_typed :
  (∀ ttl0 : Duration, typed (@NewMemoryCache (dyn float64) ttl0)) ∧
  (∀ s c r now now', typed c → typed (handle s c r now now').2).
Proof. split; [exact typed_fresh | exact typed_handle]. Qed.

(** A handler writes to the cache only with a response 200 marked MISS,
    and then only under the key of its route: every other key keeps its
    entry, no key is deleted, and a response with another status or mark
    (an error of the scraper, a hit) leaves the cache as it was. *)
Theorem handle_writes_own_key :
  ∀ s c r now now',
    (∀ key, cacheKey r ≠ Some key →
       data (handle s c r now now').2 !! key = data c !! key) ∧
    (∀ key, is_Some (data c !! key) →
       is_Some (data (handle s c r now now').2 !! key)) ∧
    (XCache (handle s c r now now').1 ≠ Some "MISS"%string →
       (handle s c r now now').2 = c) ∧
    ttl (handle s c r now now').2 = ttl c.
Proof.
  intros s c r now now'.
  destruct (handle_effect s c r now now')
    as [Heq | (key & value & Hkey & Heq & _ & Hmiss & _)]; rewrite Heq.
  - by repeat split.
  - split; [|split; [|split]].
    + intros key' Hne. simpl. apply lookup_insert_ne. congruence.
    + intros key' Hsome. simpl. destruct (decide (key = key')) as [->|Hne].
      * rewrite lookup_insert_eq. eauto.
      * by rewrite lookup_insert_ne.
    + intros Hno. by rewrite Hmiss in Hno.
    + done.
Qed.

Lemma getReadingStats_hit s c username now now' stats :
  Get c ("stats:" +:+ username) now = (Some (DStats stats), true) →
  getReadingStats s c username now now' =
    ({| Status := 200; XCache := Some "HIT"%string; Body := Some (DStats stats) |}, c).
Proof. intros HG. unfold getReadingStats. by rewrite HG. Qed.

Lemma getFavorites_hit s c username now now' books :
  Get c ("favorites:" +:+ username) now = (Some (DBooks books), true) →
  getFavorites s c username now now' =
    ({| Status := 200; XCache := Some "HIT"%string;
        Body := Some (DH [("username"%string, DString username);
                          ("favorites"%string, DBooks books);
                          ("count"%string, DInt (len books))]) |}, c).
Proof. intros HG. unfold getFavorites. by rewrite HG. Qed.

Lemma getStudyBooks_hit s c username now now' books :
  Get c ("study:" +:+ username) now = (Some (DBooks books), true) →
  getStudyBooks s c username now now' =
    ({| Status := 200; XCache := Some "HIT"%string;
        Body := Some (DH [("username"%string, DString username);
                          ("study_books"%string, DBooks books);
                          ("count"%string, DInt (len books))]) |}, c).
Proof. intros HG. unfold getStudyBooks. by rewrite HG. Qed.

(** A response marked MISS: the value it stored under the key of the
    route, and what a request of the route does when it finds that value
    under the key, and when it finds nothing. *)
Lemma handle_miss s c r now now' :
  XCache (handle s c r now now').1 = Some "MISS"%string →
  ∃ key value body,
    cacheKey r = Some key ∧
    handle s c r now now' =
      ({| Status := 200; XCache := Some "MISS"%string; Body := body |},
       Set_ c key (Some value) now') ∧
    (∀ s' c2 now2 now2',
       Get c2 key now2 = (Some value, true) →
       handle s' c2 r now2 now2' =
         ({| Status := 200; XCache := Some "HIT"%string; Body := body |}, c2)) ∧
    (∀ s' c2 now2 now2',
       (Get c2 key now2).2 = false →
       XCache (handle s' c2 r now2 now2').1 ≠ Some "HIT"%string).
Proof.
  destruct r as [|u|u sh|u|u|u|u]; simpl.
  - done.
  - unfold debugHTML. by destruct (DebugHTML s u).
  - unfold debugShelf. by destruct (DebugShelf s _ sh).
  - intros HX. unfold getReadingStats in *.
    destruct (Get c ("stats:" +:+ u) now) as [[[]|] []];
      destruct (GetReadingStats s u) as [scraped|err]; simpl in HX;
      try (by simplify_eq);
      (eexists _, _, _; split; [reflexivity|]; split; [reflexivity|]; split;
       [ intros s' c2 now2 now2' HG; by rewrite HG
       | intros s' c2 now2 now2' HG;
         destruct (Get c2 ("stats:" +:+ u) now2) as [v2 found2];
         simpl in HG; subst found2;
         by destruct v2 as [[]|], (GetReadingStats s' u) ]).
  - intros HX. unfold getFavorites in *.
    destruct (Get c ("favorites:" +:+ u) now) as [[[]|] []];
      destruct (GetReadingStats s u) as [scraped|err]; simpl in HX;
      try (by simplify_eq);
      (eexists _, _, _; split; [reflexivity|]; split; [reflexivity|]; split;
       [ intros s' c2 now2 now2' HG; by rewrite HG
       | intros s' c2 now2 now2' HG;
         destruct (Get c2 ("favorites:" +:+ u) now2) as [v2 found2];
         simpl in HG; subst found2;
         by destruct v2 as [[]|], (GetReadingStats s' u) ]).
  - intros HX. unfold getStudyBooks in *.
    destruct (Get c ("study:" +:+ u) now) as [[[]|] []];
      destruct (GetReadingStats s u) as [scraped|err]; simpl in HX;
      try (by simplify_eq);
      (eexists _, _, _; split; [reflexivity|]; split; [reflexivity|]; split;
       [ intros s' c2 now2 now2' HG; by rewrite HG
       | intros s' c2 now2 now2' HG;
         destruct (Get c2 ("study:" +:+ u) now2) as [v2 found2];
         simpl in HG; subst found2;
         by destruct v2 as [[]|], (GetReadingStats s' u) ]).
  - intros HX. unfold getPortfolioData in *.
    destruct (Get c ("portfolio:" +:+ u) now) as [v []]; simpl in HX;
      [by simplify_eq|].
    destruct (GetReadingStats s u) as [scraped|err]; simpl in HX;
      [|by simplify_eq].
    eexists _, _, _; split; [reflexivity|]; split; [reflexivity|]; split.
    + intros s' c2 now2 now2' HG. by rewrite HG.
    + intros s' c2 now2 now2' HG.
      destruct (Get c2 ("portfolio:" +:+ u) now2) as [v2 found2].
      simpl in HG. subst found2. by destruct (GetReadingStats s' u).
Qed.

(** After a response marked MISS, a request of the same route is
    answered from the cache, with the same body and without the scraper,
    as long as the TTL has not run out since the value was stored; once
    it has run out the request is no longer a hit. *)
Theorem handle_hit_after_miss :
  ∀ s s' c r now now' now2 now2',
    XCache (handle s c r now now').1 = Some "MISS"%string →
    (now2 ≤ now' + ttl c →
       handle s' (handle s c r now now').2 r now2 now2' =
         ({| Status := 200; XCache := Some "HIT"%string;
             Body := Body (handle s c r now now').1 |},
          (handle s c r now now').2)) ∧
    (now' + ttl c < now2 →
       XCache (handle s' (handle s c r now now').2 r now2 now2').1
         ≠ Some "HIT"%string).
Proof.
  intros s s' c r now now' now2 now2' HX.
  destruct (handle_miss s c r now now' HX)
    as (key & value & body & _ & -> & Hhit & Hmiss). simpl.
  split; intros Ht.
  - apply Hhit. by apply Get_Set_within.
  - apply Hmiss. by apply Get_Set_elapsed.
Qed.

(** In a cache whose values have the kinds of their keys, a request that
    finds its key is a hit: it is answered with status 200 from the
    cache, which it leaves as it is, whatever the scraper would say. *)
Theorem handle_hit_when_found :
  ∀ s c r key now now',
    typed c → cacheKey r = Some key → (Get c key now).2 = true →
    (handle s c r now now').2 = c ∧
    Status (handle s c r now now').1 = 200 ∧
    XCache (handle s c r now now').1 = Some "HIT"%string ∧
    ∀ s', handle s' c r now now' = handle s c r now now'.
Proof.
  intros s c r key now now' Hc Hkey Hfound.
  destruct (Get c key now) as [v found] eqn:HG. simpl in Hfound. subst found.
  pose proof HG as Hitem. apply Get_found in Hitem as (item & Hl & Hv & _).
  destruct r as [|u|u sh|u|u|u|u]; simpl in Hkey; try discriminate;
    injection Hkey as <-; destruct (Hc u item) as (Hs & Hf & Hst); simpl.
  - destruct (Hs Hl) as [stats Hd]. rewrite Hd in Hv. subst v.
    repeat split; intros; by rewrite !(getReadingStats_hit _ _ _ _ _ _ HG).
  - destruct (Hf Hl) as [books Hd]. rewrite Hd in Hv. subst v.
    repeat split; intros; by rewrite !(getFavorites_hit _ _ _ _ _ _ HG).
  - destruct (Hst Hl) as [books Hd]. rewrite Hd in Hv. subst v.
    repeat split; intros; by rewrite !(getStudyBooks_hit _ _ _ _ _ _ HG).
  - repeat split; intros; by rewrite !(getPortfolioData_hit _ _ _ _ _ _ HG).
Qed.

End HandlerProperties.

(** * Requests through the routes *)

Section RouteProperties.
Import time scraper cache middleware api handlers.
Context {float64 : Type}.

Implicit Types (s : Interface float64) (srv : Server float64) (r : route)
  (ip : string) (clk : Readings).

(** [ServeHTTP] in terms of the admission decisions of the two tiers. *)
Lemma ServeHTTP_limited s srv ip r clk :
  limited r = true →
  let a1 := AllowIP (limiter_of (v1 (routes srv))) ip (at_v1 clk) (limiter_heap srv) in
  let a2 := AllowIP (limiter_of (scrapeGroup (routes srv))) ip (at_scrape clk) a1.2 in
  let m1 := {| rps_of := rps_of (v1 (routes srv)); limiter_of := a1.1.2;
               error_of := error_of (v1 (routes srv)) |} in
  let m2 := {| rps_of := rps_of (scrapeGroup (routes srv)); limiter_of := a2.1.2;
               error_of := error_of (scrapeGroup (routes srv)) |} in
  (a1.1.1 = false →
     ServeHTTP s srv ip r clk =
       (Refused (Abort 429 (rps_of (v1 (routes srv))) 0 60 (error_of (v1 (routes srv)))),
        {| routes := {| v1 := m1; scrapeGroup := scrapeGroup (routes srv) |};
           limiter_heap := a1.2; store := store srv |})) ∧
  (a1.1.1 = true → a2.1.1 = false →
     ServeHTTP s srv ip r clk =
       (Refused (Abort 429 (rps_of (scrapeGroup (routes srv))) 0 60
                   (error_of (scrapeGroup (routes srv)))),
        {| routes := {| v1 := m1; scrapeGroup := m2 |};
           limiter_heap := a2.2; store := store srv |})) ∧
  (a1.1.1 = true → a2.1.1 = true →
     ∃ remaining,
       ServeHTTP s srv ip r clk =
         (Served (Some (rps_of (scrapeGroup (routes srv)), remaining))
                 (handle s (store srv) r (at_handler clk) (at_handler' clk)).1,
          {| routes := {| v1 := m1; scrapeGroup := m2 |};
             limiter_heap := a2.2;
             store := (handle s (store srv) r (at_handler clk) (at_handler' clk)).2 |})).
Proof.
  intros Hlim a1 a2 m1 m2. unfold ServeHTTP. rewrite Hlim.
  destruct (serve_decision (v1 (routes srv)) ip (at_v1 clk) (at_v1_tokens clk)
              (limiter_heap srv)) as (Hm1 & Hh1 & Ho1).
  fold a1 in Hm1, Hh1, Ho1. fold m1 in Hm1.
  destruct (serve (v1 (routes srv)) ip (at_v1 clk) (at_v1_tokens clk)
              (limiter_heap srv)) as [[o1 m1'] h1].
  cbn [fst snd] in Hm1, Hh1, Ho1. subst m1' h1 o1.
  destruct (a1.1.1) eqn:Ha1.
  - destruct (serve_decision (scrapeGroup (routes srv)) ip (at_scrape clk)
                (at_scrape_tokens clk) a1.2) as (Hm2 & Hh2 & Ho2).
    fold a2 in Hm2, Hh2, Ho2. fold m2 in Hm2.
    destruct (serve (scrapeGroup (routes srv)) ip (at_scrape clk)
                (at_scrape_tokens clk) a1.2) as [[o2 m2'] h2].
    cbn [fst snd] in Hm2, Hh2, Ho2. subst m2' h2 o2.
    destruct (a2.1.1) eqn:Ha2.
    + split; [done|]. split; [done|]. intros _ _.
      destruct (handle s (store srv) r (at_handler clk) (at_handler' clk))
        as [resp c']. eexists. reflexivity.
    + split; [done|]. split; [done|]. done.
  - split; [done|]. split; done.
Qed.

(** A refusal comes before the handler: a refused request is a request
    of a limited route, answered 429 with no remaining quota and a retry
    hint of 60 seconds by one of the two tiers; it leaves the cache as it
    is and is the same whatever the scraper would say. *)
Theorem ServeHTTP_refused_before_handler :
  ∀ s srv ip r clk o srv',
    ServeHTTP s srv ip r clk = (Refused o, srv') →
    limited r = true ∧
    store srv' = store srv ∧
    (∃ m, (m = v1 (routes srv) ∨ m = scrapeGroup (routes srv)) ∧
          o = Abort 429 (rps_of m) 0 60 (error_of m)) ∧
    ∀ s', ServeHTTP s' srv ip r clk = (Refused o, srv').
Proof.
  intros s srv ip r clk o srv' HS.
  destruct (limited r) eqn:Hlim.
  - split; [done|].
    pose proof (ServeHTTP_limited s srv ip r clk Hlim) as (H1 & H2 & H3).
    destruct ((AllowIP (limiter_of (v1 (routes srv))) ip (at_v1 clk)
                 (limiter_heap srv)).1.1) eqn:Ha1.
    + destruct ((AllowIP (limiter_of (scrapeGroup (routes srv))) ip (at_scrape clk)
                   (AllowIP (limiter_of (v1 (routes srv))) ip (at_v1 clk)
                      (limiter_heap srv)).2).1.1) eqn:Ha2.
      * destruct (H3 eq_refl eq_refl) as [rem Heq]. rewrite Heq in HS. done.
      * rewrite (H2 eq_refl eq_refl) in HS. injection HS as <- <-.
        split; [done|]. split; [eauto|]. intros s'.
        pose proof (ServeHTTP_limited s' srv ip r clk Hlim) as (_ & H2' & _).
        rewrite Ha1, Ha2 in H2'. by apply H2'.
    + rewrite (H1 eq_refl) in HS. injection HS as <- <-.
      split; [done|]. split; [eauto|]. intros s'.
      pose proof (ServeHTTP_limited s' srv ip r clk Hlim) as (H1' & _ & _).
      rewrite Ha1 in H1'. by apply H1'.
  - unfold ServeHTTP in HS. rewrite Hlim in HS.
    by destruct (handle s (store srv) r (at_handler clk) (at_handler' clk)).
Qed.

(** The general tier decides first and is charged for every request of
    a limited route, also for one that the scraping tier then refuses;
    the scraping tier is consulted, and charged, only for requests that
    the general tier admits, and the handler runs only for requests
    that both admit. *)
Theorem ServeHTTP_tiers_in_order :
  ∀ s srv ip r clk,
    limited r = true →
    let a1 := AllowIP (limiter_of (v1 (routes srv))) ip (at_v1 clk) (limiter_heap srv) in
    let a2 := AllowIP (limiter_of (scrapeGroup (routes srv))) ip (at_scrape clk) a1.2 in
    let after := (ServeHTTP s srv ip r clk).2 in
    limiter_of (v1 (routes after)) = a1.1.2 ∧
    (a1.1.1 = false →
       scrapeGroup (routes after) = scrapeGroup (routes srv) ∧
       limiter_heap after = a1.2 ∧ store after = store srv) ∧
    (a1.1.1 = true →
       limiter_of (scrapeGroup (routes after)) = a2.1.2 ∧
       limiter_heap after = a2.2 ∧
       (a2.1.1 = false → store after = store srv) ∧
       (a2.1.1 = true →
          store after = (handle s (store srv) r (at_handler clk) (at_handler' clk)).2 ∧
          ∃ remaining,
            (ServeHTTP s srv ip r clk).1 =
              Served (Some (rps_of (scrapeGroup (routes srv)), remaining))
                (handle s (store srv) r (at_handler clk) (at_handler' clk)).1)).
Proof.
  intros s srv ip r clk Hlim a1 a2 after.
  pose proof (ServeHTTP_limited s srv ip r clk Hlim) as (H1 & H2 & H3).
  fold a1 in H1, H2, H3. fold a2 in H2, H3. unfold after.
  destruct (a1.1.1) eqn:Ha1.
  - destruct (a2.1.1) eqn:Ha2.
    + destruct (H3 eq_refl eq_refl) as [rem ->]. cbn [fst snd routes v1 scrapeGroup
        limiter_of limiter_heap store].
      split; [done|]. split; [done|]. intros _.
      split; [done|]. split; [done|]. split; [done|]. intros _. eauto.
    + rewrite (H2 eq_refl eq_refl). cbn [fst snd routes v1 scrapeGroup
        limiter_of limiter_heap store].
      split; [done|]. split; [done|]. intros _.
      split; [done|]. split; [done|]. split; done.
  - rewrite (H1 eq_refl). cbn [fst snd routes v1 scrapeGroup
      limiter_of limiter_heap store].
    split; [done|]. split; done.
Qed.

(** The health and debug routes are outside both tiers: their requests
    are never refused and change no limiter, and the health check and
    the debug routes leave the cache as it is. *)
Theorem ServeHTTP_unlimited_routes :
  ∀ s srv ip r clk,
    limited r = false →
    (ServeHTTP s srv ip r clk).1
      = Served None (handle s (store srv) r (at_handler clk) (at_handler' clk)).1 ∧
    (ServeHTTP s srv ip r clk).2 = srv.
Proof.
  intros s srv ip r clk Hlim. unfold ServeHTTP. rewrite Hlim.
  destruct r; try discriminate; simpl; by destruct srv.
Qed.

End RouteProperties.

(** * Further properties of the rate limiter *)

Section LimiterFurther.
Import time middleware.

Implicit Types (i j : IPRateLimiter) (m : HandlerFunc) (h : heap) (ip : string)
  (now : Time).


(** A request through a closure never drops or moves an identity: the
    registry stays well formed, every identity keeps the limiter object
    it had, the requesting identity has one afterwards, and at most one
    object is allocated. *)
Theorem serve_registry_grows :
  ∀ m ip now now' h,
    registry_ok (limiter_of m) h →
    let m' := (serve m ip now now' h).1.2 in
    let h' := (serve m ip now now' h).2 in
    registry_ok (limiter_of m') h' ∧
    (∀ ip' (p : ptr),
       limiters (limiter_of m) !! ip' = Some p →
       limiters (limiter_of m') !! ip' = Some p) ∧
    is_Some (limiters (limiter_of m') !! ip) ∧
    (∀ ip', ip' ≠ ip →
       limiters (limiter_of m') !! ip' = limiters (limiter_of m) !! ip') ∧
    rps_of m' = rps_of m ∧ error_of m' = error_of m ∧
    limit (limiter_of m') = limit (limiter_of m) ∧
    burst (limiter_of m') = burst (limiter_of m) ∧
    (length h ≤ length h' ≤ S (length h))%nat.
Proof.
  intros m ip now now' h Hok m' h'.
  destruct (serve_decision m ip now now' h) as (Hm & Hh & _).
  pose proof (AllowIP_ok (limiter_of m) ip now h Hok) as Hok'.
  destruct (AllowIP_spec (limiter_of m) ip now h Hok)
    as (i' & h2 & p & Heq & Hi' & Hl & Hb & Hp & Hlen & Hp' & _).
  unfold m', h'. rewrite Hm, Hh. rewrite Heq in Hok' |- *. simpl in *.
  split; [done|]. rewrite Hi'.
  split; [|split; [|split; [|split; [|split; [|split; [|split]]]]]]; try done.
  - intros ip' q Hq. destruct (decide (ip = ip')) as [<-|Hne].
    + rewrite lookup_insert_eq. destruct Hp as [Hp|[Hp _]]; congruence.
    + by rewrite lookup_insert_ne.
  - rewrite lookup_insert_eq. eauto.
  - intros ip' Hne. by apply lookup_insert_ne.
  - split; [done|].
    unfold AllowIP, GetLimiter in Heq.
    destruct (limiters (limiter_of m) !! ip) as [q|] eqn:Hq.
    + unfold Allow in Heq. destruct (h !! q) as [lim|] eqn:Hhq.
      * destruct (rate.Allow lim now) as [ok lim']. injection Heq as _ _ <-.
        rewrite length_insert. lia.
      * injection Heq as _ _ <-. lia.
    + unfold Allow in Heq. rewrite list_lookup_middle in Heq by done.
      destruct (rate.Allow _ now) as [ok lim']. injection Heq as _ _ <-.
      rewrite length_insert, length_app. simpl. lia.
Qed.

(** The abstraction [serve] agrees with each closure taken line by
    line: same registry, same heap, and the outcome is what the closure
    wrote. *)
Lemma RateLimitMiddleware_func_serve rps b ip (now now' : Time) h :
  let m := RateLimitMiddleware rps b in
  let r := RateLimitMiddleware_func (rps_of m) (limiter_of m) ip now now' h in
  r.1.2 = limiter_of (serve m ip now now' h).1.2 ∧
  r.2 = (serve m ip now now' h).2 ∧
  outcome_of r.1.1 (serve m ip now now' h).1.1.
Proof.
  intros m r. unfold r, RateLimitMiddleware_func, serve.
  destruct (GetLimiter (limiter_of m) ip now h) as [[p i'] h1].
  destruct (Allow p now h1) as [[|] h2]; cbn -[pretty];
    (split; [done|]); (split; [done|]); (split; [done|]); eauto.
Qed.

Lemma ScrapeRateLimitMiddleware_func_serve rps b ip (now now' : Time) h :
  let m := ScrapeRateLimitMiddleware rps b in
  let r := ScrapeRateLimitMiddleware_func (rps_of m) (limiter_of m) ip now now' h in
  r.1.2 = limiter_of (serve m ip now now' h).1.2 ∧
  r.2 = (serve m ip now now' h).2 ∧
  outcome_of r.1.1 (serve m ip now now' h).1.1.
Proof.
  intros m r. unfold r, ScrapeRateLimitMiddleware_func, serve.
  destruct (GetLimiter (limiter_of m) ip now h) as [[p i'] h1].
  destruct (Allow p now h1) as [[|] h2]; cbn -[pretty];
    (split; [done|]); (split; [done|]); (split; [done|]); eauto.
Qed.

(** The two middlewares are one mechanism.  [RateLimitMiddleware] and
    [ScrapeRateLimitMiddleware] build the same registry from the same
    arguments; their closures, each taken line by line with its whole
    answer, on the same request from the same registry and heap make the
    decision of [AllowIP], leave the same registry and heap and write the
    same headers; a refusal has status 429 and [retry_after] 60 in both,
    and the two differ in the error name and in the message of the body,
    and in nothing else. *)
Theorem middlewares_same_mechanism :
  (∀ rps b,
     rps_of (RateLimitMiddleware rps b) = rps_of (ScrapeRateLimitMiddleware rps b) ∧
     limiter_of (RateLimitMiddleware rps b)
       = limiter_of (ScrapeRateLimitMiddleware rps b)) ∧
  (∀ rps limiter ip now now' h,
     let r1 := RateLimitMiddleware_func rps limiter ip now now' h in
     let r2 := ScrapeRateLimitMiddleware_func rps limiter ip now now' h in
     let d := AllowIP limiter ip now h in
     r1.1.2 = d.1.2 ∧ r2.1.2 = d.1.2 ∧
     r1.2 = d.2 ∧ r2.2 = d.2 ∧
     Header r1.1.1 = Header r2.1.1 ∧
     match aborted r1.1.1, aborted r2.1.1 with
     | None, None => d.1.1 = true
     | Some (st1, b1), Some (st2, b2) =>
         d.1.1 = false ∧
         st1 = 429 ∧ st2 = 429 ∧
         body_retry_after b1 = 60 ∧ body_retry_after b2 = 60 ∧
         body_error b1 = "rate_limit_exceeded" ∧
         body_error b2 = "scrape_rate_limit_exceeded" ∧
         body_message b1 = "Too many requests. Please try again later." ∧
         body_message b2
           = "Scraping rate limit exceeded. Please wait before making more requests." ∧
         body_error b1 ≠ body_error b2 ∧ body_message b1 ≠ body_message b2
     | _, _ => False
     end).
Proof.
  split; [done|].
  intros rps limiter ip now now' h r1 r2 d.
  unfold r1, r2, d, RateLimitMiddleware_func, ScrapeRateLimitMiddleware_func, AllowIP.
  destruct (GetLimiter limiter ip now h) as [[p i'] h1].
  destruct (Allow p now h1) as [[|] h2]; cbn -[pretty]; [done|].
  repeat (split; [done|]). done.
Qed.

End LimiterFurther.

(** * The further properties at the inputs of the test suites *)

(** [TestMemoryCache_Expiration]: a TTL of 100ms, a [Get] 150ms after
    the [Set]. *)
Lemma Get_after_ttl_elapsed_test :
  let c := @cache.NewMemoryCache string (100 * Millisecond) in
  0 + cache.ttl c < 150 * Millisecond ∧
  cache.Get (cache.Set_ c "key1" (Some "value1"%string) 0) "key1" (150 * Millisecond)
    = (None, false).
Proof.
  intros c.
  assert (0 + cache.ttl c < 150 * Millisecond) as Hlt by (vm_compute; reflexivity).
  split; [exact Hlt|].
  exact (proj1 (Get_after_ttl_elapsed c "key1" (Some "value1"%string) 0
                  (150 * Millisecond) Hlt)).
Defined.

Lemma Delete_removes_only_key_test :
  let c := cache.Set_ cache.expiration_test "key2" (Some "value2"%string) 0 in
  ("key2" : string) ≠ "key1" ∧
  cache.data (cache.Delete c "key1") !! "key2" = cache.data c !! "key2".
Proof.
  intros c.
  assert (("key2" : string) ≠ "key1") as Hne by discriminate.
  split; [exact Hne|].
  exact (proj1 (proj2 (Delete_removes_only_key c "key1")) "key2" Hne).
Defined.

Lemma cleanup_invisible_to_Get_test :
  Minute ≤ Minute ∧
  cache.Get (cache.cleanup cache.expiration_test Minute) "key1" Minute
    = cache.Get cache.expiration_test "key1" Minute.
Proof.
  assert (Minute ≤ Minute) as Hle by lia.
  split; [exact Hle|].
  exact (cleanup_invisible_to_Get cache.expiration_test "key1" Minute Minute Hle).
Defined.

Lemma cleanup_cleanup_test :
  Second ≤ Minute ∧
  cache.cleanup (cache.cleanup cache.expiration_test Second) Minute
    = cache.cleanup cache.expiration_test Minute.
Proof.
  assert (Second ≤ Minute) as Hle by (vm_compute; discriminate).
  split; [exact Hle|].
  exact (cleanup_cleanup cache.expiration_test Second Minute Hle).
Defined.

Lemma Get_value_was_Set_test :
  let h := [(cache.OpSet "key1" (Some "value1"%string), 0); (cache.OpCleanup, 5)] in
  cache.Get (cache.run (cache.NewMemoryCache Hour) h) "key1" 7
    = (Some "value1"%string, true) ∧
  ∃ t, (cache.OpSet "key1" (Some "value1"%string), t) ∈ h ∧ 7 ≤ t + Hour.
Proof.
  intros h.
  assert (cache.Get (cache.run (cache.NewMemoryCache Hour) h) "key1" 7
            = (Some "value1"%string, true)) as HG by (vm_compute; reflexivity).
  split; [exact HG|].
  exact (Get_value_was_Set Hour h "key1" 7 (Some "value1"%string) HG).
Defined.

(** [TestLoad_DefaultValues] *)
Lemma Load_defaults_test :
  (∀ key, key ∈ config.variables → os.Getenv ∅ key = "") ∧
  config.Load (fun _ => None) ∅ = config.defaults.
Proof.
  assert (∀ key, key ∈ config.variables → os.Getenv ∅ key = "") as Hunset.
  { intros key _. unfold os.Getenv. by rewrite lookup_empty. }
  split; [exact Hunset|].
  exact (Load_defaults (fun _ => None) ∅ Hunset).
Defined.

Lemma Load_reads_only_its_variables_test :
  let env : gmap string string := {["PORT" := "9090"]} in
  let env' : gmap string string := <["HOME" := "/root"]> env in
  (∀ key, key ∈ config.variables → os.Getenv env key = os.Getenv env' key) ∧
  config.Load (fun _ => None) env = config.Load (fun _ => None) env'.
Proof.
  intros env env'.
  assert (∀ key, key ∈ config.variables → os.Getenv env key = os.Getenv env' key)
    as Hsame.
  { intros key Hk. unfold os.Getenv, env'. rewrite lookup_insert_ne; [done|].
    intros <-. apply list_elem_of_In in Hk. simpl in Hk. intuition congruence. }
  split; [exact Hsame|].
  exact (Load_reads_only_its_variables (fun _ => None) env env' Hsame).
Defined.

(** [TestGetIntEnv], "handles negative value". *)
Lemma getIntEnv_decimal_test :
  let env : gmap string string := {["TEST_INT" := "-10"]} in
  (strconv.MinInt ≤ -10 ∧ -10 ≤ strconv.MaxInt ∧
   env !! "TEST_INT" = Some (pretty (-10))) ∧
  config.getIntEnv env "TEST_INT" 42 = -10.
Proof.
  intros env.
  assert (strconv.MinInt ≤ -10) as Hmin by (vm_compute; discriminate).
  assert (-10 ≤ strconv.MaxInt) as Hmax by (vm_compute; discriminate).
  assert (env !! "TEST_INT" = Some (pretty (-10))) as Hk by (vm_compute; reflexivity).
  split; [done|].
  exact (proj1 (getIntEnv_decimal (fun _ => None) env "TEST_INT" 42 (-10) Hmin Hmax Hk)).
Defined.

(** [TestExtractNumber], "no number". *)
Lemma extractNumber_range_test :
  scraper.find_digits "no numbers here" = "" ∧
  scraper.extractNumber "no numbers here" = 0.
Proof.
  assert (scraper.find_digits "no numbers here" = "") as Hn by reflexivity.
  split; [exact Hn|].
  exact (proj2 (extractNumber_range "no numbers here") Hn).
Defined.

(** [TestParseRatingsReviews], "with extra text". *)
Lemma extractNumber_decimal_test :
  (0 ≤ 61 ∧ 61 ≤ strconv.MaxInt ∧
   scraper.find_digits "Total: " = "" ∧
   scraper.take_digits (strings.ReplaceAll " ratings | 9 reviews" "," "") = "") ∧
  scraper.extractNumber ("Total: " +:+ pretty 61 +:+ " ratings | 9 reviews") = 61.
Proof.
  assert (0 ≤ 61) as H0 by lia.
  assert (61 ≤ strconv.MaxInt) as Hmax by (vm_compute; discriminate).
  assert (scraper.find_digits "Total: " = "") as Hpre by reflexivity.
  assert (scraper.take_digits (strings.ReplaceAll " ratings | 9 reviews" "," "") = "")
    as Hpost by reflexivity.
  split; [done|].
  exact (extractNumber_decimal "Total: " " ratings | 9 reviews" 61 H0 Hmax Hpre Hpost).
Defined.

Lemma getUserID_hyphen_test :
  strings.Contains "kaine" "-" = false ∧
  (scraper.Scraper.getUserID "kaine").1 = "101839711-kaine".
Proof.
  assert (strings.Contains "kaine" "-" = false) as Hn by reflexivity.
  split; [exact Hn|].
  exact (proj2 (proj2 (proj2 (proj2 (getUserID_hyphen "kaine")))) Hn).
Defined.

Lemma GetReadingStats_without_hyphen_test :
  let G := scraper.Scraper.GetReadingStats 0%Qc fixtures.online fixtures.reader
             fixtures.no_stats (fixtures.shelf_of [fixtures.test_book]) in
  (strings.Contains "alice" "-" = false ∧ strings.Contains "bob" "-" = false) ∧
  match G "alice" 7, G "bob" 7 with
  | inl s1, inl s2 =>
      scraper.Username s1 = "alice" ∧ scraper.Username s2 = "bob" ∧
      scraper.UserID s1 = "101839711-kaine" ∧ scraper.UserID s2 = scraper.UserID s1 ∧
      scraper.AverageRating s2 = scraper.AverageRating s1 ∧
      scraper.TotalRatings s2 = scraper.TotalRatings s1 ∧
      scraper.TotalReviews s2 = scraper.TotalReviews s1 ∧
      scraper.LastUpdated s2 = scraper.LastUpdated s1 ∧
      scraper.Favorites s2 = scraper.Favorites s1 ∧
      scraper.StudyBooks s2 = scraper.StudyBooks s1 ∧
      scraper.TotalBooks s2 = scraper.TotalBooks s1 ∧
      scraper.BooksThisYear s2 = scraper.BooksThisYear s1 ∧
      scraper.CurrentlyReading s2 = scraper.CurrentlyReading s1 ∧
      scraper.RecentReads s2 = scraper.RecentReads s1
  | inr e1, inr e2 => e1 = e2
  | _, _ => False
  end.
Proof.
  intros G.
  assert (strings.Contains "alice" "-" = false) as H1 by reflexivity.
  assert (strings.Contains "bob" "-" = false) as H2 by reflexivity.
  split; [done|].
  exact (GetReadingStats_without_hyphen 0%Qc fixtures.online fixtures.reader
           fixtures.no_stats (fixtures.shelf_of [fixtures.test_book])
           "alice" "bob" 7 H1 H2).
Defined.

Lemma GetReadingStats_succeeds_with_profile_test :
  (fixtures.only_read
     ("https://www.goodreads.com/user/show/"
        +:+ (scraper.Scraper.getUserID "101839711-kaine").1) = inl (200, ""%string) ∧
   fixtures.reader "" = inl tt) ∧
  ∃ stats,
    scraper.Scraper.GetReadingStats 0%Qc fixtures.only_read fixtures.reader
      fixtures.no_stats (fixtures.shelf_of []) "101839711-kaine" 7 = inl stats ∧
    scraper.UserID stats = "101839711-kaine" ∧
    scraper.Username stats = "101839711-kaine" ∧
    scraper.StudyBooks stats = [].
Proof.
  split; [done|].
  destruct (GetReadingStats_succeeds_with_profile 0%Qc fixtures.only_read
              fixtures.reader fixtures.no_stats (fixtures.shelf_of [])
              "101839711-kaine" 7 "" tt eq_refl eq_refl)
    as (stats & HG & Hid & Hu & _ & _ & Hst).
  exists stats. split; [exact HG|]. split; [exact Hid|]. split; [exact Hu|].
  exact Hst.
Defined.

(** Twelve books on the shelf "read" and none on the other two: the
    favourites are the first ten. *)
Lemma GetReadingStats_favorites_test :
  ∃ stats,
    scraper.Scraper.GetReadingStats 0%Qc fixtures.only_read fixtures.reader
      fixtures.no_stats (fixtures.shelf_of (replicate 12 fixtures.test_book))
      "101839711-kaine" 7 = inl stats ∧
    scraper.Favorites stats = replicate 10 fixtures.test_book.
Proof.
  eexists. split; [vm_compute; reflexivity|].
  refine (proj1 (proj2 (GetReadingStats_favorites 0%Qc fixtures.only_read
                          fixtures.reader fixtures.no_stats
                          (fixtures.shelf_of (replicate 12 fixtures.test_book))
                          "101839711-kaine" 7 _ eq_refl)) eq_refl eq_refl).
Defined.

Lemma cacheKey_injective_test :
  (handlers.cacheKey (handlers.ReadingStatsOf "testuser") = Some "stats:testuser"%string ∧
   handlers.cacheKey (handlers.ReadingStatsOf "testuser") = Some "stats:testuser"%string) ∧
  handlers.ReadingStatsOf "testuser" = handlers.ReadingStatsOf "testuser".
Proof.
  split; [done|].
  exact (cacheKey_injective (handlers.ReadingStatsOf "testuser")
           (handlers.ReadingStatsOf "testuser") "stats:testuser" eq_refl eq_refl).
Defined.

Lemma handle_keeps_typed_test :
  let c := @cache.NewMemoryCache (handlers.dyn Qc) Hour in
  handlers.typed c ∧
  handlers.typed
    (handlers.handle fixtures.mock c (handlers.FavoritesOf "testuser") 0 0).2.
Proof.
  intros c.
  assert (handlers.typed c) as Hc by exact (proj1 handle_keeps_typed Hour).
  split; [exact Hc|].
  exact (proj2 handle_keeps_typed fixtures.mock c (handlers.FavoritesOf "testuser")
           0 0 Hc).
Defined.

(** A failure of the scraper is not cached. *)
Lemma handle_writes_own_key_test :
  let c := @cache.NewMemoryCache (handlers.dyn Qc) Hour in
  let r := handlers.ReadingStatsOf "testuser" in
  handlers.XCache (handlers.handle fixtures.failing c r 0 0).1 ≠ Some "MISS"%string ∧
  (handlers.handle fixtures.failing c r 0 0).2 = c.
Proof.
  intros c r.
  assert (handlers.XCache (handlers.handle fixtures.failing c r 0 0).1
            ≠ Some "MISS"%string) as Hno by discriminate.
  split; [exact Hno|].
  exact (proj1 (proj2 (proj2 (handle_writes_own_key fixtures.failing c r 0 0))) Hno).
Defined.

(** [TestCaching]: the second request is answered from the cache, here
    with a scraper that would fail. *)
Lemma handle_hit_after_miss_test :
  let c := @cache.NewMemoryCache (handlers.dyn Qc) Hour in
  let r := handlers.ReadingStatsOf "testuser" in
  (handlers.XCache (handlers.handle fixtures.mock c r 0 0).1 = Some "MISS"%string ∧
   5 ≤ 0 + cache.ttl c) ∧
  handlers.handle fixtures.failing (handlers.handle fixtures.mock c r 0 0).2 r 5 5 =
    ({| handlers.Status := 200; handlers.XCache := Some "HIT"%string;
        handlers.Body := handlers.Body (handlers.handle fixtures.mock c r 0 0).1 |},
     (handlers.handle fixtures.mock c r 0 0).2).
Proof.
  intros c r.
  assert (handlers.XCache (handlers.handle fixtures.mock c r 0 0).1
            = Some "MISS"%string) as HX by reflexivity.
  assert (5 ≤ 0 + cache.ttl c) as Ht by (vm_compute; discriminate).
  split; [done|].
  exact (proj1 (handle_hit_after_miss fixtures.mock fixtures.failing c r 0 0 5 5 HX) Ht).
Defined.

Lemma handle_hit_when_found_test :
  let r := handlers.ReadingStatsOf "testuser" in
  let c := (handlers.handle fixtures.mock
              (@cache.NewMemoryCache (handlers.dyn Qc) Hour) r 0 0).2 in
  (handlers.typed c ∧ handlers.cacheKey r = Some "stats:testuser"%string ∧
   (cache.Get c "stats:testuser" 5).2 = true) ∧
  handlers.XCache (handlers.handle fixtures.failing c r 5 5).1 = Some "HIT"%string.
Proof.
  intros r c.
  assert (handlers.typed c) as Hc by (apply typed_handle, typed_fresh).
  assert (handlers.cacheKey r = Some "stats:testuser"%string) as Hk by reflexivity.
  assert ((cache.Get c "stats:testuser" 5).2 = true) as Hf by (vm_compute; reflexivity).
  split; [done|].
  exact (proj1 (proj2 (proj2 (handle_hit_when_found fixtures.failing c r
                                 "stats:testuser" 5 5 Hc Hk Hf)))).
Defined.

(** One request for the scraping tier: the second request of an address
    at the same instant is refused by that tier, before the handler. *)
Lemma ServeHTTP_refused_before_handler_test :
  let r := handlers.FavoritesOf "testuser" in
  let srv := (handlers.ServeHTTP fixtures.mock (fixtures.started fixtures.strict)
                "192.0.2.1" r (fixtures.at_once 0)).2 in
  let o := middleware.Abort 429 1 0 60 "scrape_rate_limit_exceeded" in
  let srv' := (handlers.ServeHTTP fixtures.mock srv "192.0.2.1" r (fixtures.at_once 0)).2 in
  handlers.ServeHTTP fixtures.mock srv "192.0.2.1" r (fixtures.at_once 0)
    = (handlers.Refused o, srv') ∧
  handlers.store srv' = handlers.store srv ∧
  handlers.ServeHTTP fixtures.failing srv "192.0.2.1" r (fixtures.at_once 0)
    = (handlers.Refused o, srv').
Proof.
  intros r srv o srv'.
  assert (handlers.ServeHTTP fixtures.mock srv "192.0.2.1" r (fixtures.at_once 0)
            = (handlers.Refused o, srv')) as HS.
  { rewrite (surjective_pairing
               (handlers.ServeHTTP fixtures.mock srv "192.0.2.1" r (fixtures.at_once 0))).
    apply pair_equal_spec. split; [vm_compute; reflexivity | reflexivity]. }
  split; [exact HS|].
  destruct (ServeHTTP_refused_before_handler fixtures.mock srv "192.0.2.1" r
              (fixtures.at_once 0) o srv' HS) as (_ & Hstore & _ & Hany).
  split; [exact Hstore | exact (Hany fixtures.failing)].
Defined.

Lemma ServeHTTP_tiers_in_order_test :
  let r := handlers.FavoritesOf "testuser" in
  let srv := fixtures.started fixtures.strict in
  handlers.limited r = true ∧
  middleware.limiter_of
    (api.v1 (handlers.routes
               (handlers.ServeHTTP fixtures.mock srv "192.0.2.1" r (fixtures.at_once 0)).2))
  = (middleware.AllowIP (middleware.limiter_of (api.v1 (handlers.routes srv)))
       "192.0.2.1" 0 (handlers.limiter_heap srv)).1.2.
Proof.
  intros r srv.
  assert (handlers.limited r = true) as Hl by reflexivity.
  split; [exact Hl|].
  exact (proj1 (ServeHTTP_tiers_in_order fixtures.mock srv "192.0.2.1" r
                  (fixtures.at_once 0) Hl)).
Defined.

(** The health check of a server that refuses the address on its
    limited routes. *)
Lemma ServeHTTP_unlimited_routes_test :
  let r := handlers.FavoritesOf "testuser" in
  let srv := (handlers.ServeHTTP fixtures.mock (fixtures.started fixtures.strict)
                "192.0.2.1" r (fixtures.at_once 0)).2 in
  handlers.limited handlers.Health = false ∧
  (handlers.ServeHTTP fixtures.mock srv "192.0.2.1" handlers.Health
     (fixtures.at_once 0)).2 = srv.
Proof.
  intros r srv.
  assert (handlers.limited handlers.Health = false) as Hl by reflexivity.
  split; [exact Hl|].
  exact (proj2 (ServeHTTP_unlimited_routes fixtures.mock srv "192.0.2.1"
                  handlers.Health (fixtures.at_once 0) Hl)).
Defined.


Lemma serve_registry_grows_test :
  let m := middleware.RateLimitMiddleware 10 10 in
  middleware.registry_ok (middleware.limiter_of m) [] ∧
  is_Some (middleware.limiters
             (middleware.limiter_of (middleware.serve m "192.0.2.1" 0 0 []).1.2)
           !! "192.0.2.1").
Proof.
  intros m.
  assert (middleware.registry_ok (middleware.limiter_of m) []) as Hok
    by apply registry_ok_empty.
  split; [exact Hok|].
  exact (proj1 (proj2 (proj2 (serve_registry_grows m "192.0.2.1" 0 0 [] Hok)))).
Defined.

